(** * The latency benchmark harness [elapsed_time]

    Source: generative-ai-talk-banglore-may-23/stable-diffusion-intel-openvino-demo.ipynb,
    second code cell:

    <<
    import time

    def elapsed_time(pipeline, prompt, nb_pass=4, num_inference_steps=20):
        # warmup
        images = pipeline(prompt, num_inference_steps=10).images
        start = time.time()
        for _ in range(nb_pass):
            _ = pipeline(prompt, num_inference_steps=num_inference_steps, output_type="np")
        end = time.time()
        return (end - start) / nb_pass
    >>

    The function is embedded as a computation in a small monad that threads
    the outside world (the pipeline's internals and the wall clock), may
    stop with a Python exception, and records the calls it makes, in order.
    The values of [time.time()] are Python floats (IEEE 754 binary64); the
    function is written once over the arithmetic it uses ([-] and [/]) and
    read on binary64, as Python does, and on exact rationals. *)

From Stdlib Require Import ZArith QArith Qpower Qabs Qfield List String Bool Lia Lqa.
From Stdlib Require Import Floats.SpecFloat.
Import ListNotations.

Set Implicit Arguments.

(** ** Python floats: IEEE 754 binary64 *)

Module Binary64.

Definition prec : Z := 53.
Definition emax : Z := 1024.

(** A Python float.  The values Python can hold are the [valid] ones. *)
Definition float : Type := spec_float.

Definition valid (x : float) : bool := valid_binary prec emax x.

Definition add (x y : float) : float := SFadd prec emax x y.
Definition sub (x y : float) : float := SFsub prec emax x y.
Definition div (x y : float) : float := SFdiv prec emax x y.
Definition leb (x y : float) : bool := SFleb x y.
Definition ltb (x y : float) : bool := SFltb x y.
Definition eqb (x y : float) : bool := SFeqb x y.

Definition zero : float := S754_zero false.

(** [float(n)] for a Python int: the nearest binary64 value, ties to even;
    an int beyond the range rounds to an infinity here, and Python raises
    OverflowError for it (see [truediv]). *)
Definition of_int (n : Z) : float := binary_normalize prec emax n 0 false.

(** The float a decimal literal [n/m] denotes, for [n] and [m] that are
    exact as floats: the correctly rounded quotient. *)
Definition of_ratio (n m : Z) : float := div (of_int n) (of_int m).

(** Neither an infinity nor a NaN, and a value of the format. *)
Definition is_finite (x : float) : bool :=
  match x with
  | S754_zero _ => true
  | S754_finite _ m e => bounded prec emax m e
  | _ => false
  end.

(** The sign of a value that is not a NaN. *)
Definition sign_is (s : bool) (x : float) : Prop :=
  match x with
  | S754_zero s' | S754_infinity s' | S754_finite s' _ _ => s' = s
  | S754_nan => False
  end.

(** The same, for a value that is not a zero either. *)
Definition nonzero_sign_is (s : bool) (x : float) : Prop :=
  match x with
  | S754_infinity s' | S754_finite s' _ _ => s' = s
  | _ => False
  end.

(** Neither an infinity nor a NaN. *)
Definition is_number (x : float) : bool :=
  match x with
  | S754_zero _ | S754_finite _ _ _ => true
  | _ => false
  end.

Definition pow2 (e : Z) : Q := (2 ^ e)%Q.

(** The value of a signed integer mantissa at an exponent. *)
Definition scaled (m : Z) (e : Z) : Q := inject_Z m * pow2 e.

(** The rational a float that is a number stands for. *)
Definition value (x : float) : Q :=
  match x with
  | S754_finite s m e =>
      (if s then - inject_Z (Zpos m) else inject_Z (Zpos m)) * pow2 e
  | _ => 0
  end.

(** The bound proved for one rounding of a value of magnitude [x]: four
    units in the last of the 53 places, and four times the least positive
    float where the result is too small for 53 places. *)
Definition tolerance (x : Q) : Q := x * pow2 (-50) + pow2 (-1072).

(** [math.isnan(x)]. *)
Definition is_nan (x : float) : bool :=
  match x with
  | S754_nan => true
  | _ => false
  end.

(** [x >= 0.0], by the shape of [x]: a zero of either sign, or positive. *)
Definition nonneg (x : float) : Prop :=
  match x with
  | S754_zero _ => True
  | S754_infinity s | S754_finite s _ _ => s = false
  | S754_nan => False
  end.

End Binary64.

(** ** The arithmetic of [(end - start) / nb_pass] *)

(** The two exceptions of [float / int]. *)
Inductive ArithError : Type :=
| FloatDivisionByZero   (* ZeroDivisionError: float division by zero *)
| IntTooLargeForFloat.  (* OverflowError: int too large to convert to float *)

(** The number type of the clock readings with the operations the harness
    applies to them, and the addition that worlds use to advance the clock. *)
Class TimeArith (T : Type) : Type := {
  t_eq : T -> T -> Prop;
  t_add : T -> T -> T;
  t_sub : T -> T -> T;
  t_truediv : T -> Z -> ArithError + T
}.

(** Python's semantics: [x / n] converts [n] to a float, fails if it does not
    fit or if the converted divisor is zero, and divides in binary64. *)
Definition float_truediv (x : Binary64.float) (n : Z) : ArithError + Binary64.float :=
  match Binary64.of_int n with
  | S754_infinity _ => inl IntTooLargeForFloat
  | S754_zero _ => inl FloatDivisionByZero
  | y => inr (Binary64.div x y)
  end.

#[export] Instance binary64_arith : TimeArith Binary64.float := {
  t_eq := eq;
  t_add := Binary64.add;
  t_sub := Binary64.sub;
  t_truediv := float_truediv
}.

(** The idealised reading: clock readings are rationals and nothing rounds. *)
Definition exact_truediv (x : Q) (n : Z) : ArithError + Q :=
  if Z.eqb n 0 then inl FloatDivisionByZero else inr (x / inject_Z n)%Q.

#[export] Instance exact_arith : TimeArith Q := {
  t_eq := Qeq;
  t_add := Qplus;
  t_sub := Qminus;
  t_truediv := exact_truediv
}.

(** What the division does with a zero divisor, in both readings. *)
Class TimeArithLaws (T : Type) {arith : TimeArith T} : Prop := {
  truediv_by_zero : forall x : T, t_truediv x 0 = inl FloatDivisionByZero;
  truediv_by_nonzero :
    forall (x : T) (n : Z), n <> 0%Z -> t_truediv x n <> inl FloatDivisionByZero
}.

Arguments truediv_by_zero {T arith _} x.
Arguments truediv_by_nonzero {T arith _} x n _.

(** ** Calls, outcomes, exceptions and events *)

(** The arguments of one [pipeline(...)] call.  [output_type] is [None] when
    the keyword is not passed. *)
Record Call : Type := mkCall {
  prompt : string;
  num_inference_steps : Z;
  output_type : option string
}.

(** What a call of the opaque pipeline does: it returns an object or raises. *)
Inductive Outcome (Obj Exc : Type) : Type :=
| Returns (r : Obj)
| Raises (e : Exc).

Arguments Returns {Obj Exc} r.
Arguments Raises {Obj Exc} e.

(** The exceptions that can leave [elapsed_time], by origin. *)
Inductive PyExc (Exc : Type) : Type :=
| Propagated (e : Exc)             (* raised inside [pipeline(...)] *)
| AttributeError (attr : string)   (* the attribute access of the warm-up line *)
| ZeroDivisionError                (* the final division *)
| OverflowError.                   (* the final division *)

Arguments Propagated {Exc} e.
Arguments AttributeError {Exc} attr.
Arguments ZeroDivisionError {Exc}.
Arguments OverflowError {Exc}.

(** What the harness does to the outside, in order. *)
Inductive Event (T : Type) : Type :=
| EvCall (c : Call)          (* pipeline(...) *)
| EvGetattr (attr : string)  (* .images *)
| EvTime (t : T).            (* time.time(), with the reading *)

Arguments EvCall {T} c.
Arguments EvGetattr {T} attr.
Arguments EvTime {T} t.

Definition is_call {T} (ev : Event T) : bool :=
  match ev with EvCall _ => true | _ => false end.

Definition is_time {T} (ev : Event T) : bool :=
  match ev with EvTime _ => true | _ => false end.

Definition is_getattr {T} (ev : Event T) : bool :=
  match ev with EvGetattr _ => true | _ => false end.

(** The calls of a trace, in order, and their number. *)
Fixpoint calls_of {T} (tr : list (Event T)) : list Call :=
  match tr with
  | [] => []
  | EvCall c :: tr' => c :: calls_of tr'
  | _ :: tr' => calls_of tr'
  end.

Definition invocations {T} (tr : list (Event T)) : nat := List.length (calls_of tr).

Definition timestamps {T} (tr : list (Event T)) : nat := List.length (filter is_time tr).

(** ** The harness *)

Section Harness.

Context {T : Type} {arith : TimeArith T}.

(** The outside world, the objects a pipeline returns, the value of their
    [images] attribute and the exceptions a pipeline raises. *)
Variables World Obj Img Exc : Type.

(** A pipeline is a callable: it reads and changes the world. *)
Definition Pipeline : Type := Call -> World -> Outcome Obj Exc * World.

(** [obj.images]: [None] when the object has no such attribute. *)
Variable images : Obj -> option Img.

(** [time.time()]: the reading of the wall clock in a world. *)
Variable time_time : World -> T.

(** A run: how it ended, the world it left and what it did. *)
Definition Run (A : Type) : Type := (PyExc Exc + A) * World * list (Event T).

Definition outcome {A} (r : Run A) : PyExc Exc + A := fst (fst r).
Definition final_world {A} (r : Run A) : World := snd (fst r).
Definition events {A} (r : Run A) : list (Event T) := snd r.

Definition M (A : Type) : Type := World -> Run A.

Definition ret {A} (a : A) : M A := fun w => (inr a, w, []).

Definition raise {A} (e : PyExc Exc) : M A := fun w => (inl e, w, []).

Definition bind {A B} (m : M A) (f : A -> M B) : M B :=
  fun w =>
    match m w with
    | (inl e, w1, t1) => (inl e, w1, t1)
    | (inr a, w1, t1) =>
        let '(r, w2, t2) := f a w1 in (r, w2, t1 ++ t2)
    end.

Notation "x <- m ;; k" := (bind m (fun x => k))
  (at level 61, m at next level, right associativity).
Notation "m ;;; k" := (bind m (fun _ => k))
  (at level 61, right associativity).

(** [pipeline(prompt, ...)] *)
Definition call (pipeline : Pipeline) (c : Call) : M Obj :=
  fun w =>
    match pipeline c w with
    | (Returns r, w') => (inr r, w', [EvCall c])
    | (Raises e, w') => (inl (Propagated e), w', [EvCall c])
    end.

(** [obj.images] *)
Definition getattr_images (o : Obj) : M Img :=
  fun w =>
    match images o with
    | Some i => (inr i, w, [EvGetattr "images"%string])
    | None => (inl (AttributeError "images"%string), w, [EvGetattr "images"%string])
    end.

(** [time.time()] *)
Definition time : M T :=
  fun w => (inr (time_time w), w, [EvTime (time_time w)]).

(** [x / n], with the exceptions of the division as Python names them. *)
Definition division_result (x : T) (n : Z) : PyExc Exc + T :=
  match t_truediv x n with
  | inr v => inr v
  | inl FloatDivisionByZero => inl ZeroDivisionError
  | inl IntTooLargeForFloat => inl OverflowError
  end.

Definition truediv (x : T) (n : Z) : M T :=
  match division_result x n with
  | inr v => ret v
  | inl e => raise e
  end.

(** [for i in range(n): body]: [k] iterations are left, the next index
    is [i]. *)
Fixpoint for_loop (k : nat) (i : Z) (body : Z -> M unit) : M unit :=
  match k with
  | O => ret tt
  | S k' => body i ;;; for_loop k' (i + 1)%Z body
  end.

Definition for_range (n : Z) (body : Z -> M unit) : M unit :=
  for_loop (Z.to_nat n) 0%Z body.

(** The two argument lists the harness passes. *)
Definition warmup_call (prompt : string) : Call :=
  mkCall prompt 10 None.

Definition timed_call (prompt : string) (num_inference_steps : Z) : Call :=
  mkCall prompt num_inference_steps (Some "np"%string).

Definition elapsed_time (pipeline : Pipeline) (prompt : string)
    (nb_pass : Z) (num_inference_steps : Z) : M T :=
  out <- call pipeline (warmup_call prompt) ;;
  images <- getattr_images out ;;
  start <- time ;;
  for_range nb_pass (fun _ =>
    _ <- call pipeline (timed_call prompt num_inference_steps) ;;
    ret tt) ;;;
  end_ <- time ;;
  truediv (t_sub end_ start) nb_pass.


(** The body of the loop, by name. *)
Definition timed_body (pipeline : Pipeline) (c : Call) : Z -> M unit :=
  fun _ => _ <- call pipeline c ;; ret tt.

(** *** Vocabulary of the statements *)

(** The world after [k] consecutive calls with arguments [c] that all
    return; [None] as soon as one raises. *)
Fixpoint world_after (pipeline : Pipeline) (c : Call) (k : nat) (w : World)
    : option World :=
  match k with
  | O => Some w
  | S k' =>
      match pipeline c w with
      | (Returns _, w') => world_after pipeline c k' w'
      | (Raises _, _) => None
      end
  end.

(** The world obtained from [w] by the pipeline's own transitions for the
    calls of a trace, in order; the other events leave it as it is. *)
Fixpoint replay (pipeline : Pipeline) (tr : list (Event T)) (w : World) : World :=
  match tr with
  | [] => w
  | EvCall c :: tr' => replay pipeline tr' (snd (pipeline c w))
  | _ :: tr' => replay pipeline tr' w
  end.

(** The four ways a run of [elapsed_time] from [w] can go. *)
Inductive RunShape (pipeline : Pipeline) (the_prompt : string) (nb_pass steps : Z)
    (w : World) : Prop :=
| WarmupRaised e w1 :
    pipeline (warmup_call the_prompt) w = (Raises e, w1) ->
    RunShape pipeline the_prompt nb_pass steps w
| NoImages r w1 :
    pipeline (warmup_call the_prompt) w = (Returns r, w1) -> images r = None ->
    RunShape pipeline the_prompt nb_pass steps w
| Measured r i w1 w2 :
    pipeline (warmup_call the_prompt) w = (Returns r, w1) -> images r = Some i ->
    world_after pipeline (timed_call the_prompt steps) (Z.to_nat nb_pass) w1 = Some w2 ->
    RunShape pipeline the_prompt nb_pass steps w
| TimedRaised r i w1 j wj e wj' :
    pipeline (warmup_call the_prompt) w = (Returns r, w1) -> images r = Some i ->
    (j < Z.to_nat nb_pass)%nat ->
    world_after pipeline (timed_call the_prompt steps) j w1 = Some wj ->
    pipeline (timed_call the_prompt steps) wj = (Raises e, wj') ->
    RunShape pipeline the_prompt nb_pass steps w.

(** Every call returns, and what it returns has the [images] attribute. *)
Definition always_succeeds (pipeline : Pipeline) : Prop :=
  forall c w, exists r i, fst (pipeline c w) = Returns r /\ images r = Some i.

(** A deterministic pipeline: what a call returns or raises, and how far
    it moves the clock, depend on its arguments only. *)
Definition deterministic (pipeline : Pipeline)
    (out : Call -> Outcome Obj Exc) (dur : Call -> T) : Prop :=
  forall c w,
    fst (pipeline c w) = out c /\
    t_eq (time_time (snd (pipeline c w))) (t_add (time_time w) (dur c)).

(** Two runs end the same way: with the same exception, or with equal
    values. *)
Definition same_result (r1 r2 : PyExc Exc + T) : Prop :=
  match r1, r2 with
  | inl e1, inl e2 => e1 = e2
  | inr v1, inr v2 => t_eq v1 v2
  | _, _ => False
  end.

(** Every call moves the clock forward by [d]. *)
Definition fixed_duration (pipeline : Pipeline) (d : T) : Prop :=
  forall c w, t_eq (time_time (snd (pipeline c w))) (t_add (time_time w) d).

End Harness.

Arguments ret {T World Exc A} a _.
Arguments raise {T World Exc A} e _.
Arguments time {T World Exc} time_time _.
Arguments truediv {T arith World Exc} x n _.
Arguments for_loop {T World Exc} k i body _.
Arguments for_range {T World Exc} n body _.

(** ** The clock, as binary64 readings of exact times *)

(** In the run from [w], the two readings taken around the [nb_pass] timed
    calls are numbers below [2^1000] in magnitude, and they differ by
    [nb_pass * d] up to [delta]: [d] is the time one call takes, [delta]
    what the clock adds or loses over the timed region. *)
Definition readings_advance {World Obj Exc : Type}
    (time_time : World -> Binary64.float) (pipeline : Pipeline World Obj Exc)
    (the_prompt : string) (nb_pass steps : Z) (w : World) (d delta : Q) : Prop :=
  forall r w1 w2,
    pipeline (warmup_call the_prompt) w = (Returns r, w1) ->
    world_after pipeline (timed_call the_prompt steps) (Z.to_nat nb_pass) w1 = Some w2 ->
    Binary64.is_number (time_time w1) = true /\
    Binary64.is_number (time_time w2) = true /\
    Qabs (Binary64.value (time_time w1)) <= Binary64.pow2 1000 /\
    Qabs (Binary64.value (time_time w2)) <= Binary64.pow2 1000 /\
    Qabs (Binary64.value (time_time w2) - Binary64.value (time_time w1)
          - inject_Z nb_pass * d) <= delta.

(** How far from [d] the binary64 average of [n] passes can be: the share of
    the clock's [delta] in one pass, and the rounding of the subtraction and
    of the division. *)
Definition average_tolerance (d delta : Q) (n : Z) : Q :=
  (d + delta / inject_Z n) * Binary64.pow2 (-47) + Binary64.pow2 (-1070)
  + delta / inject_Z n.

(** ** Vocabulary of the further statements *)

(** Everything a run does when nothing fails, in order, with the two clock
    readings [s] and [e]. *)
Definition full_trace {T : Type} (the_prompt : string) (nb_pass steps : Z) (s e : T)
    : list (Event T) :=
  [EvCall (warmup_call the_prompt); EvGetattr "images"%string; EvTime s]
    ++ repeat (EvCall (timed_call the_prompt steps)) (Z.to_nat nb_pass)
    ++ [EvTime e].

(** Two pipelines do the same to the world and raise the same exceptions;
    the objects they return may differ, as long as a call without
    [output_type] returns an object with [images] from the one when it does
    from the other. *)
Definition same_effects {World Obj1 Obj2 Img1 Img2 Exc : Type}
    (images1 : Obj1 -> option Img1) (images2 : Obj2 -> option Img2)
    (p1 : Pipeline World Obj1 Exc) (p2 : Pipeline World Obj2 Exc) : Prop :=
  forall c w,
    snd (p1 c w) = snd (p2 c w) /\
    match fst (p1 c w), fst (p2 c w) with
    | Raises e1, Raises e2 => e1 = e2
    | Returns r1, Returns r2 =>
        output_type c = None -> (images1 r1 = None <-> images2 r2 = None)
    | _, _ => False
    end.



(** ** Worlds used to run the harness on concrete inputs *)

(** The objects the example pipelines return: with or without [images]. *)
Inductive Output : Type := WithImages | Bare.

Definition images_of (o : Output) : option unit :=
  match o with WithImages => Some tt | Bare => None end.

(** A world that is just the wall clock, read as it is. *)
Definition clock_reading {T : Type} (w : T) : T := w.

(** A pipeline that always returns and takes [d] per call. *)
Definition ticking {T} {arith : TimeArith T} (d : T) : Pipeline T Output string :=
  fun _ w => (Returns WithImages, t_add w d).

(** A world with a call counter beside the clock. *)
Definition counted_reading {T : Type} (w : nat * T) : T := snd w.

(** A pipeline that takes [d] per call and raises on its call number [k]
    (counted from 0), leaving the clock where the failure found it. *)
Definition failing_at {T} {arith : TimeArith T} (k : nat) (d : T)
    : Pipeline (nat * T) Output string :=
  fun _ w =>
    if Nat.eqb (fst w) k
    then (Raises "out of memory"%string, (S (fst w), snd w))
    else (Returns WithImages, (S (fst w), t_add (snd w) d)).

(** A pipeline whose objects have no [images] attribute. *)
Definition bare {T} {arith : TimeArith T} (d : T) : Pipeline T Output string :=
  fun _ w => (Returns Bare, t_add w d).

(** Some binary64 values, by the decimal literals that denote them. *)
Definition f0_1 : Binary64.float := Binary64.of_ratio 1 10.
Definition f5 : Binary64.float := Binary64.of_int 5.
Definition f10 : Binary64.float := Binary64.of_int 10.
Definition fneg5 : Binary64.float := Binary64.of_int (-5).

(** A wall clock that is set back while the timed call runs: the warm-up
    call leaves it at 10.0, a timed call at 5.0. *)
Definition clock_set_back : Pipeline Binary64.float Output string :=
  fun c w =>
    match output_type c with
    | None => (Returns WithImages, f10)
    | Some _ => (Returns WithImages, f5)
    end.

(** A pipeline that returns the step count it was given as its object and
    takes [d] per call. *)
Definition stepping {T} {arith : TimeArith T} (d : T) : Pipeline T Z string :=
  fun c w => (Returns (num_inference_steps c), t_add w d).


Unset Implicit Arguments.

(** ** Facts about binary64 rounding, subtraction and division *)

Module Binary64Facts.

Import Binary64.

Lemma shr_m_of_loc m l : shr_m (shr_record_of_loc m l) = m.
Proof. destruct l as [|[| |]]; reflexivity. Qed.

Lemma shr_1_div2 mrs : (0 <= shr_m mrs)%Z -> shr_m (shr_1 mrs) = (shr_m mrs / 2)%Z.
Proof.
  destruct mrs as [m r s]. cbn [shr_m]. intros Hm.
  destruct m as [|[p|p|]|p]; cbn [shr_1 shr_m]; try lia; try reflexivity.
  - apply Z.div_unique with 1%Z; lia.
  - apply Z.div_unique with 0%Z; lia.
Qed.

Lemma iter_shr_1 p : forall mrs, (0 <= shr_m mrs)%Z ->
  shr_m (iter_pos shr_1 p mrs) = (shr_m mrs / 2 ^ Zpos p)%Z.
Proof.
  assert (Hpow : forall k, (0 < 2 ^ Zpos k)%Z) by (intros; apply Z.pow_pos_nonneg; lia).
  assert (Hnn : forall m k, (0 <= m -> 0 <= m / 2 ^ Zpos k)%Z).
  { intros. apply Z.div_pos; [lia|apply Hpow]. }
  assert (Hsq : forall k, (2 ^ Zpos k~0 = 2 ^ Zpos k * 2 ^ Zpos k)%Z).
  { intros k. replace (Zpos k~0) with (Zpos k + Zpos k)%Z by lia.
    rewrite Z.pow_add_r by lia. reflexivity. }
  induction p as [p IH|p IH|]; intros mrs Hm; cbn [iter_pos].
  - assert (H1 : (0 <= shr_m (shr_1 mrs))%Z).
    { rewrite shr_1_div2 by auto. apply Z.div_pos; lia. }
    assert (H2 : (0 <= shr_m (iter_pos shr_1 p (shr_1 mrs)))%Z).
    { rewrite IH by auto. apply Hnn; auto. }
    rewrite IH, IH, shr_1_div2 by auto.
    rewrite !Z.div_div by (try apply Hpow; lia).
    f_equal. rewrite Pos2Z.inj_xI, Z.pow_add_r by lia.
    change (2 * Zpos p)%Z with (Zpos p~0). rewrite Hsq. ring.
  - assert (H2 : (0 <= shr_m (iter_pos shr_1 p mrs))%Z).
    { rewrite IH by auto. apply Hnn; auto. }
    rewrite IH, IH by auto.
    rewrite !Z.div_div by (try apply Hpow; lia).
    f_equal. rewrite Hsq. ring.
  - rewrite shr_1_div2 by auto. reflexivity.
Qed.

Lemma digits2_pos_bounds m :
  (2 ^ (Zpos (digits2_pos m) - 1) <= Zpos m < 2 ^ Zpos (digits2_pos m))%Z.
Proof.
  induction m as [m IH|m IH|]; simpl digits2_pos.
  - rewrite Pos2Z.inj_succ.
    replace (Z.succ (Zpos (digits2_pos m)) - 1)%Z with (Zpos (digits2_pos m) - 1 + 1)%Z by lia.
    rewrite Z.pow_succ_r, Z.pow_add_r by lia. lia.
  - rewrite Pos2Z.inj_succ.
    replace (Z.succ (Zpos (digits2_pos m)) - 1)%Z with (Zpos (digits2_pos m) - 1 + 1)%Z by lia.
    rewrite Z.pow_succ_r, Z.pow_add_r by lia. lia.
  - simpl. lia.
Qed.

Lemma shr_fexp_pos m e l :
  (0 < m)%Z -> (emin prec emax <= e)%Z ->
  (0 < shr_m (fst (shr_fexp prec emax m e l)))%Z /\
  (emin prec emax <= snd (shr_fexp prec emax m e l))%Z.
Proof.
  intros Hm He. unfold shr_fexp, shr.
  destruct m as [|p|p]; try lia. simpl Zdigits2.
  pose proof (digits2_pos_bounds p) as [Hlo Hhi].
  set (d := Zpos (digits2_pos p)) in *.
  assert (Hd : (1 <= d)%Z) by (unfold d; lia).
  unfold fexp. unfold emin, prec, emax in *.
  destruct (Z.max (d + e - 53) (3 - 1024 - 53) - e)%Z as [|n|n] eqn:Hn; simpl fst; simpl snd.
  - rewrite shr_m_of_loc. lia.
  - rewrite iter_shr_1 by (rewrite shr_m_of_loc; lia).
    rewrite shr_m_of_loc. split; [|lia].
    apply Z.div_str_pos. split; [apply Z.pow_pos_nonneg; lia|].
    apply Z.le_trans with (2 ^ (d - 1))%Z; [|exact Hlo].
    apply Z.pow_le_mono_r; lia.
  - rewrite shr_m_of_loc. lia.
Qed.

Lemma shr_fexp_nonneg m e l :
  (0 <= m)%Z -> (0 <= shr_m (fst (shr_fexp prec emax m e l)))%Z.
Proof.
  intros Hm. unfold shr_fexp, shr.
  destruct (fexp prec emax (Zdigits2 m + e) - e)%Z as [|n|n]; simpl fst;
    rewrite ?iter_shr_1, ?shr_m_of_loc; rewrite ?shr_m_of_loc; try lia.
  apply Z.div_pos; [lia|apply Z.pow_pos_nonneg; lia].
Qed.

Lemma round_nearest_even_ge m l : (m <= round_nearest_even m l)%Z.
Proof.
  unfold round_nearest_even. destruct l as [|[| |]]; try lia.
  destruct (Z.even m); lia.
Qed.

Lemma binary_round_aux_sign sx mx ex lx :
  (0 <= mx)%Z -> sign_is sx (binary_round_aux prec emax sx mx ex lx).
Proof.
  intros Hm. unfold binary_round_aux.
  pose proof (shr_fexp_nonneg mx ex lx Hm) as H1.
  destruct (shr_fexp prec emax mx ex lx) as [mrs' e']. cbn [fst] in H1.
  pose proof (round_nearest_even_ge (shr_m mrs') (loc_of_shr_record mrs')) as Hr.
  set (m1 := round_nearest_even (shr_m mrs') (loc_of_shr_record mrs')) in *.
  pose proof (shr_fexp_nonneg m1 e' loc_Exact ltac:(lia)) as H2.
  destruct (shr_fexp prec emax m1 e' loc_Exact) as [mrs'' e'']. cbn [fst] in H2.
  destruct (shr_m mrs'') as [|p|p]; cbn [sign_is nonzero_sign_is]; try lia; try reflexivity.
  destruct (e'' <=? emax - prec)%Z; reflexivity.
Qed.

Lemma binary_round_aux_nonzero sx mx ex lx :
  (0 < mx)%Z -> (emin prec emax <= ex)%Z ->
  nonzero_sign_is sx (binary_round_aux prec emax sx mx ex lx).
Proof.
  intros Hm He. unfold binary_round_aux.
  pose proof (shr_fexp_pos mx ex lx Hm He) as [H1 H1e].
  destruct (shr_fexp prec emax mx ex lx) as [mrs' e']. cbn [fst snd] in H1, H1e.
  pose proof (round_nearest_even_ge (shr_m mrs') (loc_of_shr_record mrs')) as Hr.
  set (m1 := round_nearest_even (shr_m mrs') (loc_of_shr_record mrs')) in *.
  pose proof (shr_fexp_pos m1 e' loc_Exact ltac:(lia) H1e) as [H2 _].
  destruct (shr_fexp prec emax m1 e' loc_Exact) as [mrs'' e'']. cbn [fst] in H2.
  destruct (shr_m mrs'') as [|p|p]; cbn [sign_is nonzero_sign_is]; try lia; try reflexivity.
  destruct (e'' <=? emax - prec)%Z; reflexivity.
Qed.

Lemma shl_align_exponent m e e' :
  (emin prec emax <= e)%Z -> (emin prec emax <= e')%Z ->
  (emin prec emax <= snd (shl_align m e e'))%Z.
Proof.
  intros He He'. unfold shl_align. destruct (e' - e)%Z; simpl; assumption.
Qed.

Lemma of_int_nonzero n :
  n <> 0%Z -> nonzero_sign_is (n <? 0)%Z (of_int n).
Proof.
  intros Hn. unfold of_int, binary_normalize, binary_round.
  destruct n as [|p|p]; [congruence| |].
  - pose proof (shl_align_exponent p 0 (fexp prec emax (Zpos (digits2_pos p) + 0))) as He.
    destruct (shl_align p 0 (fexp prec emax (Zpos (digits2_pos p) + 0))) as [mz ez].
    cbn [snd] in He. apply binary_round_aux_nonzero; [lia|].
    apply He; unfold fexp, emin, prec, emax; lia.
  - pose proof (shl_align_exponent p 0 (fexp prec emax (Zpos (digits2_pos p) + 0))) as He.
    destruct (shl_align p 0 (fexp prec emax (Zpos (digits2_pos p) + 0))) as [mz ez].
    cbn [snd] in He. apply binary_round_aux_nonzero; [lia|].
    apply He; unfold fexp, emin, prec, emax; lia.
Qed.


Lemma leb_zero_nonneg x : leb zero x = true <-> nonneg x.
Proof.
  unfold leb, SFleb, zero. destruct x as [s|[|]| |[|] m e]; simpl;
    split; intros H; try reflexivity; try discriminate; try exact I; try contradiction.
Qed.

Lemma sign_is_nonneg x : sign_is false x -> nonneg x.
Proof. destruct x; simpl; tauto. Qed.

Lemma nonzero_sign_is_sign s x : nonzero_sign_is s x -> sign_is s x.
Proof. destruct x; simpl; tauto. Qed.

Lemma float_truediv_nonneg x n v :
  leb zero x = true -> (0 < n)%Z -> float_truediv x n = inr v ->
  leb zero v = true.
Proof.
  intros Hx Hn Hv. apply leb_zero_nonneg. apply leb_zero_nonneg in Hx.
  unfold float_truediv in Hv.
  pose proof (of_int_nonzero n ltac:(lia)) as Hy.
  replace (n <? 0)%Z with false in Hy by (symmetry; apply Z.ltb_ge; lia).
  destruct (of_int n) as [sy|sy| |sy my ey]; simpl in Hy; try contradiction;
    try discriminate.
  subst sy. injection Hv as <-.
  destruct x as [sx|sx| |sx mx ex]; simpl in Hx; try contradiction.
  - exact I.
  - subst sx. reflexivity.
  - subst sx. unfold div, SFdiv.
    destruct (SFdiv_core_binary prec emax (Zpos mx) ex (Zpos my) ey) as [[mz ez] lz] eqn:Hc.
    apply sign_is_nonneg. apply (binary_round_aux_sign (xorb false false)).
    unfold SFdiv_core_binary in Hc.
    set (m' := match (ex - ey - Z.min (fexp prec emax (Zdigits2 (Zpos mx) + ex - (Zdigits2 (Zpos my) + ey))) (ex - ey))%Z with
               | Z0 => Zpos mx | Zpos _ => Z.shiftl (Zpos mx) (ex - ey - Z.min (fexp prec emax (Zdigits2 (Zpos mx) + ex - (Zdigits2 (Zpos my) + ey))) (ex - ey)) | Zneg _ => 0%Z end) in *.
    assert (Hm' : (0 <= m')%Z).
    { unfold m'. destruct (ex - ey - Z.min (fexp prec emax (Zdigits2 (Zpos mx) + ex - (Zdigits2 (Zpos my) + ey))) (ex - ey))%Z; try lia.
      apply Z.shiftl_nonneg. lia. }
    pose proof (Z.div_pos m' (Zpos my) Hm' ltac:(lia)) as Hq.
    unfold Z.div in Hq. destruct (Z.div_eucl m' (Zpos my)) as [q r].
    injection Hc as <- _ _. exact Hq.
Qed.

Lemma iter_xO m d : Zpos (Pos.iter xO m d) = (Zpos m * 2 ^ Zpos d)%Z.
Proof.
  induction d as [|d IH] using Pos.peano_ind.
  - simpl. lia.
  - rewrite Pos.iter_succ, Pos2Z.inj_xO, IH, Pos2Z.inj_succ, Z.pow_succ_r by lia. ring.
Qed.

Lemma shl_align_value m e e' :
  Zpos (fst (shl_align m e e')) =
  if (e' <? e)%Z then (Zpos m * 2 ^ (e - e'))%Z else Zpos m.
Proof.
  unfold shl_align. destruct (e' - e)%Z as [|d|d] eqn:Hd; cbn [fst].
  - replace (e' <? e)%Z with false by (symmetry; apply Z.ltb_ge; lia). reflexivity.
  - replace (e' <? e)%Z with false by (symmetry; apply Z.ltb_ge; lia). reflexivity.
  - replace (e' <? e)%Z with true by (symmetry; apply Z.ltb_lt; lia).
    rewrite iter_xO. replace (e - e')%Z with (Zpos d) by lia. reflexivity.
Qed.

Lemma bounded_canonical m e :
  bounded prec emax m e = true ->
  e = Z.max (Zpos (digits2_pos m) + e - 53) (-1074).
Proof.
  unfold bounded, canonical_mantissa, fexp, emin, prec, emax.
  intros H. apply andb_true_iff in H. destruct H as [H _].
  apply Z.eqb_eq in H. lia.
Qed.

(** Of two positive values of the format, the one with the larger exponent is
    the larger, once both are written at the smaller exponent. *)
Lemma aligned_le m1 e1 m2 e2 :
  bounded prec emax m1 e1 = true -> bounded prec emax m2 e2 = true ->
  (e1 < e2)%Z ->
  (Zpos m1 <= Zpos m2 * 2 ^ (e2 - e1))%Z.
Proof.
  intros H1 H2 Hlt.
  apply bounded_canonical in H1. apply bounded_canonical in H2.
  pose proof (digits2_pos_bounds m1) as [_ Hhi].
  pose proof (digits2_pos_bounds m2) as [Hlo _].
  set (d1 := Zpos (digits2_pos m1)) in *. set (d2 := Zpos (digits2_pos m2)) in *.
  assert (Hd1 : (d1 <= 53)%Z) by lia.
  assert (Hd2 : (d2 = 53)%Z) by lia.
  rewrite Hd2 in Hlo. change (2 ^ (53 - 1))%Z with 4503599627370496%Z in Hlo.
  assert (Hp1 : (2 ^ d1 <= 2 ^ 53)%Z) by (apply Z.pow_le_mono_r; lia).
  change (2 ^ 53)%Z with 9007199254740992%Z in Hp1.
  assert (Hp : (2 ^ 1 <= 2 ^ (e2 - e1))%Z) by (apply Z.pow_le_mono_r; lia).
  change (2 ^ 1)%Z with 2%Z in Hp.
  nia.
Qed.

Lemma binary_normalize_nonneg m e :
  (0 <= m)%Z -> nonneg (binary_normalize prec emax m e false).
Proof.
  intros Hm. unfold binary_normalize, binary_round.
  destruct m as [|p|p]; [exact I| |lia].
  destruct (shl_align p e (fexp prec emax (Zpos (digits2_pos p) + e))) as [mz ez].
  apply sign_is_nonneg. apply binary_round_aux_sign. lia.
Qed.

Lemma sub_nonneg x y :
  is_finite x = true -> is_finite y = true -> leb y x = true ->
  leb zero (sub x y) = true.
Proof.
  intros Fx Fy Hle. apply leb_zero_nonneg.
  unfold leb, SFleb in Hle. unfold sub.
  destruct x as [sx|sx| |sx mx ex]; try discriminate;
    destruct y as [sy|sy| |sy my ey]; try discriminate.
  - destruct sx, sy; exact I.
  - cbn [SFsub nonneg]. destruct sy; [reflexivity|discriminate].
  - cbn [SFsub nonneg]. destruct sx; [discriminate|reflexivity].
  - cbn [is_finite] in Fx, Fy. cbn [SFsub].
    apply binary_normalize_nonneg.
    pose proof (shl_align_value mx ex (Z.min ex ey)) as Ha.
    pose proof (shl_align_value my ey (Z.min ex ey)) as Hb.
    pose proof (Pos2Z.is_pos (fst (shl_align mx ex (Z.min ex ey)))) as Hapos.
    pose proof (Pos2Z.is_pos (fst (shl_align my ey (Z.min ex ey)))) as Hbpos.
    set (a := Zpos (fst (shl_align mx ex (Z.min ex ey)))) in *.
    set (b := Zpos (fst (shl_align my ey (Z.min ex ey)))) in *.
    destruct sx, sy; cbn [SFcompare] in Hle; try discriminate; cbn [cond_Zopp].
    + (* both negative *)
      destruct (Z.compare_spec ey ex) as [He|He|He]; try discriminate.
      * subst ey. rewrite Z.min_id, Z.ltb_irrefl in Ha, Hb.
        rewrite Pos.compare_cont_spec in Hle. cbn [Pos.switch_Eq] in Hle.
        destruct (Pos.compare_spec my mx); try discriminate; lia.
      * rewrite Z.min_l in Ha, Hb by lia. rewrite Z.ltb_irrefl in Ha.
        replace (ex <? ey)%Z with true in Hb by (symmetry; apply Z.ltb_lt; lia).
        pose proof (aligned_le mx ex my ey Fx Fy He). lia.
    + (* both positive *)
      destruct (Z.compare_spec ey ex) as [He|He|He]; try discriminate.
      * subst ey. rewrite Z.min_id, Z.ltb_irrefl in Ha, Hb.
        rewrite Pos.compare_cont_spec in Hle. cbn [Pos.switch_Eq] in Hle.
        destruct (Pos.compare_spec my mx); try discriminate; lia.
      * rewrite Z.min_r in Ha, Hb by lia. rewrite Z.ltb_irrefl in Hb.
        replace (ey <? ex)%Z with true in Ha by (symmetry; apply Z.ltb_lt; lia).
        pose proof (aligned_le my ey mx ex Fy Fx He). lia.
Qed.

(** *** The rounding error of [-] and [/] *)

Lemma pow2_pos e : 0 < pow2 e.
Proof. unfold pow2. apply Qpower_0_lt. reflexivity. Qed.

Lemma pow2_add a b : pow2 (a + b) == pow2 a * pow2 b.
Proof. unfold pow2. apply Qpower_plus. discriminate. Qed.

Lemma pow2_le a b : (a <= b)%Z -> pow2 a <= pow2 b.
Proof. intros H. unfold pow2. apply Qpower_le_compat_l; [exact H|discriminate]. Qed.

Lemma pow2_Z k : (0 <= k)%Z -> inject_Z (2 ^ k) == pow2 k.
Proof. intros H. unfold pow2. rewrite Zpower_Qpower by exact H. reflexivity. Qed.

(** Dropping [k] low bits of [m], in the rationals. *)
Lemma shift_right_bounds m e k :
  (0 <= m)%Z -> (0 <= k)%Z ->
  inject_Z (m / 2 ^ k) * pow2 (e + k) <= inject_Z m * pow2 e /\
  inject_Z m * pow2 e + pow2 e <= (inject_Z (m / 2 ^ k) + 1) * pow2 (e + k).
Proof.
  intros Hm Hk.
  assert (Hp : (0 < 2 ^ k)%Z) by (apply Z.pow_pos_nonneg; lia).
  pose proof (Z.mul_div_le m (2 ^ k) Hp) as Hlo.
  pose proof (Z.mul_succ_div_gt m (2 ^ k) Hp) as Hhi.
  rewrite pow2_add, <- (pow2_Z k Hk).
  pose proof (pow2_pos e) as He.
  set (q := (m / 2 ^ k)%Z) in *.
  assert (Hlo' : inject_Z (2 ^ k) * inject_Z q <= inject_Z m).
  { rewrite <- inject_Z_mult. rewrite <- Zle_Qle. exact Hlo. }
  assert (Hhi' : inject_Z m + 1 <= inject_Z (2 ^ k) * (inject_Z q + 1)).
  { change 1 with (inject_Z 1). rewrite <- !inject_Z_plus, <- inject_Z_mult.
    rewrite <- Zle_Qle. unfold Z.succ in Hhi. lia. }
  split; nra.
Qed.

Lemma pow2_max a b : pow2 (Z.max a b) <= pow2 a + pow2 b.
Proof.
  pose proof (pow2_pos a). pose proof (pow2_pos b).
  destruct (Z.max_spec a b) as [[_ ->]|[_ ->]]; lra.
Qed.

Lemma shr_fexp_spec m e l :
  (0 <= m)%Z ->
  shr_m (fst (shr_fexp prec emax m e l))
    = (m / 2 ^ Z.max 0 (fexp prec emax (Zdigits2 m + e) - e))%Z /\
  snd (shr_fexp prec emax m e l)
    = (e + Z.max 0 (fexp prec emax (Zdigits2 m + e) - e))%Z.
Proof.
  intros Hm. unfold shr_fexp, shr.
  destruct (fexp prec emax (Zdigits2 m + e) - e)%Z as [|k|k]; cbn [fst snd].
  - rewrite shr_m_of_loc. simpl. rewrite Z.div_1_r. split; lia.
  - rewrite iter_shr_1 by (rewrite shr_m_of_loc; exact Hm).
    rewrite shr_m_of_loc. rewrite Z.max_r by lia. split; reflexivity.
  - rewrite shr_m_of_loc. rewrite Z.max_l by lia. simpl. rewrite Z.div_1_r. split; lia.
Qed.

Lemma round_nearest_even_cases m l :
  round_nearest_even m l = m \/ round_nearest_even m l = (m + 1)%Z.
Proof.
  unfold round_nearest_even. destruct l as [|[| |]]; auto.
  destruct (Z.even m); auto.
Qed.

(** The power of two just below a positive integer, by its number of digits. *)
Lemma pow2_digits m :
  (0 < m)%Z -> pow2 (Zdigits2 m - 1) <= inject_Z m.
Proof.
  intros Hm. destruct m as [|p|p]; try lia. cbn [Zdigits2].
  pose proof (digits2_pos_bounds p) as [Hlo _].
  rewrite <- pow2_Z by lia. rewrite <- Zle_Qle. exact Hlo.
Qed.

(** [fexp] of the exponent of a value is at most 52 binary places below the
    value, or the least exponent. *)
Lemma pow2_fexp m e :
  (0 < m)%Z ->
  pow2 (fexp prec emax (Zdigits2 m + e)) <= inject_Z m * pow2 e * pow2 (-52) + pow2 (-1074).
Proof.
  intros Hm. unfold fexp, emin, prec, emax.
  change (3 - 1024 - 53)%Z with (-1074)%Z.
  eapply Qle_trans; [apply pow2_max|].
  apply Qplus_le_l.
  replace (Zdigits2 m + e - 53)%Z with ((Zdigits2 m - 1) + (e + -52))%Z by lia.
  rewrite !pow2_add.
  pose proof (pow2_digits m Hm) as Hd.
  pose proof (pow2_pos e) as He. pose proof (pow2_pos (-52)) as H52.
  assert (HP : 0 < pow2 e * pow2 (-52)) by nra.
  set (P := pow2 e * pow2 (-52)) in *.
  setoid_replace (inject_Z m * pow2 e * pow2 (-52)) with (inject_Z m * P)
    by (unfold P; ring).
  apply Qmult_le_compat_r; [exact Hd|lra].
Qed.

Lemma pow2_50 : pow2 (-50) == 4 * pow2 (-52).
Proof. change (-50)%Z with (2 + -52)%Z. rewrite pow2_add. reflexivity. Qed.

Lemma pow2_1072 : pow2 (-1072) == 4 * pow2 (-1074).
Proof. change (-1072)%Z with (2 + -1074)%Z. rewrite pow2_add. reflexivity. Qed.

Lemma pow2_52_le_1 : pow2 (-52) <= 1.
Proof. change 1 with (pow2 0). apply pow2_le. lia. Qed.

(** Rounding a positive value that lies between [mx * 2^ex] and the next
    multiple of [2^ex], when [ex] is not above the exponent of the format for
    that magnitude: the result has the sign asked for and is within
    [tolerance] of the value. *)
Lemma round_aux_error sx mx ex lx x :
  (0 <= mx)%Z ->
  (ex <= fexp prec emax (Zdigits2 mx + ex))%Z ->
  inject_Z mx * pow2 ex <= x ->
  x <= inject_Z mx * pow2 ex + pow2 ex ->
  match binary_round_aux prec emax sx mx ex lx with
  | S754_zero s => s = sx /\ x <= tolerance x
  | S754_finite s m e =>
      s = sx /\ Qabs (inject_Z (Zpos m) * pow2 e - x) <= tolerance x
  | S754_infinity s => s = sx /\ pow2 1022 <= x
  | S754_nan => False
  end.
Proof.
  intros Hm Hk Hlo Hhi. unfold binary_round_aux.
  pose proof (shr_fexp_spec mx ex lx ltac:(lia)) as [Hm1 He1].
  destruct (shr_fexp prec emax mx ex lx) as [mrs1 e1]. cbn [fst snd] in Hm1, He1.
  rewrite Z.max_r in Hm1, He1 by lia.
  set (k1 := (fexp prec emax (Zdigits2 mx + ex) - ex)%Z) in *.
  pose proof (shift_right_bounds mx ex k1 ltac:(lia) ltac:(lia)) as [Hs1 Hs2].
  rewrite <- Hm1, <- He1 in Hs1, Hs2.
  assert (Hm1nn : (0 <= shr_m mrs1)%Z).
  { rewrite Hm1. apply Z.div_pos; [lia|apply Z.pow_pos_nonneg; lia]. }
  assert (HE1 : pow2 e1 <= x * pow2 (-52) + pow2 (-1074)).
  { replace e1 with (fexp prec emax (Zdigits2 mx + ex)) by (unfold k1 in He1; lia).
    pose proof (pow2_pos (-52)) as P52'.
    destruct (Z.eq_dec mx 0) as [Hz|Hnz].
    - subst mx. cbn [Zdigits2] in *.
      assert (fexp prec emax (0 + ex) = (-1074)%Z) as ->
        by (unfold fexp, emin, prec, emax in *; lia).
      assert (0 <= x * pow2 (-52)).
      { apply Qmult_le_0_compat; [|lra].
        eapply Qle_trans; [|exact Hlo]. setoid_replace (inject_Z 0 * pow2 ex) with 0 by ring.
        apply Qle_refl. }
      lra.
    - eapply Qle_trans; [apply (pow2_fexp mx ex ltac:(lia))|].
      apply Qplus_le_l.
      apply Qmult_le_compat_r; [exact Hlo|lra]. }
  set (m1 := round_nearest_even (shr_m mrs1) (loc_of_shr_record mrs1)).
  assert (Hm1' : (shr_m mrs1 <= m1 <= shr_m mrs1 + 1)%Z).
  { unfold m1.
    destruct (round_nearest_even_cases (shr_m mrs1) (loc_of_shr_record mrs1))
      as [-> | ->]; lia. }
  assert (Hq1 : inject_Z (shr_m mrs1) <= inject_Z m1 <= inject_Z (shr_m mrs1) + 1).
  { change 1 with (inject_Z 1). rewrite <- inject_Z_plus, <- !Zle_Qle. exact Hm1'. }
  pose proof (shr_fexp_spec m1 e1 loc_Exact ltac:(lia)) as [Hm2 He2].
  destruct (shr_fexp prec emax m1 e1 loc_Exact) as [mrs2 e2]. cbn [fst snd] in Hm2, He2.
  set (k2 := Z.max 0 (fexp prec emax (Zdigits2 m1 + e1) - e1)) in *.
  pose proof (shift_right_bounds m1 e1 k2 ltac:(lia) ltac:(lia)) as [Ht1 Ht2].
  rewrite <- Hm2, <- He2 in Ht1, Ht2.
  assert (Hm2nn : (0 <= shr_m mrs2)%Z).
  { rewrite Hm2. apply Z.div_pos; [lia|apply Z.pow_pos_nonneg; lia]. }
  pose proof (pow2_pos e1) as Pe1. pose proof (pow2_pos e2) as Pe2.
  pose proof (pow2_pos (-52)) as P52. pose proof (pow2_pos (-1074)) as Ptau.
  pose proof pow2_52_le_1 as P52le.
  assert (Hx : 0 <= x).
  { eapply Qle_trans; [|exact Hlo]. apply Qmult_le_0_compat; [|lra].
    change 0 with (inject_Z 0). rewrite <- Zle_Qle. lia. }
  assert (HE2 : pow2 e2 <= pow2 e1 + (x + pow2 e1) * pow2 (-52) + pow2 (-1074)).
  { destruct (Z.eq_dec m1 0) as [Hz|Hnz].
    - assert (e2 = e1) as ->.
      { rewrite He2. unfold k2. rewrite Hz. cbn [Zdigits2].
        unfold k1 in He1. unfold fexp, emin, prec, emax in *. lia. }
      nra.
    - rewrite He2. unfold k2.
      replace (e1 + Z.max 0 (fexp prec emax (Zdigits2 m1 + e1) - e1))%Z
        with (Z.max e1 (fexp prec emax (Zdigits2 m1 + e1))) by lia.
      eapply Qle_trans; [apply pow2_max|].
      pose proof (pow2_fexp m1 e1 ltac:(lia)) as Hf.
      assert (B1 : inject_Z m1 * pow2 e1 <= inject_Z (shr_m mrs1) * pow2 e1 + pow2 e1)
        by nra.
      assert (B2 : inject_Z m1 * pow2 e1 * pow2 (-52) <= (x + pow2 e1) * pow2 (-52)).
      { apply Qmult_le_compat_r; lra. }
      lra. }
  assert (A1 : inject_Z m1 * pow2 e1 <= inject_Z (shr_m mrs1) * pow2 e1 + pow2 e1) by nra.
  assert (A2 : inject_Z (shr_m mrs1) * pow2 e1 <= inject_Z m1 * pow2 e1) by nra.
  assert (A3 : pow2 e1 * pow2 (-52) <= pow2 e1) by nra.
  assert (A4 : 0 <= x * pow2 (-52)) by nra.
  assert (Herr : Qabs (inject_Z (shr_m mrs2) * pow2 e2 - x) <= tolerance x).
  { unfold tolerance. rewrite pow2_50, pow2_1072.
    apply Qabs_Qle_condition.
    assert (C1 : x <= inject_Z (shr_m mrs2) * pow2 e2 + pow2 e2) by lra.
    assert (C2 : inject_Z (shr_m mrs2) * pow2 e2 <= x + pow2 e1) by lra.
    assert (C3 : pow2 e2 <= 3 * (x * pow2 (-52)) + 3 * pow2 (-1074)) by lra.
    split; lra. }
  destruct (shr_m mrs2) as [|p|p] eqn:Hp; try lia.
  - split; [reflexivity|].
    apply Qabs_Qle_condition in Herr. destruct Herr as [Herr _].
    setoid_replace (inject_Z 0 * pow2 e2 - x) with (- x) in Herr by ring.
    lra.
  - destruct (Z.leb_spec e2 (emax - prec)) as [Hfin|Hinf];
      [split; [reflexivity|exact Herr]|split; [reflexivity|]].
    unfold emax, prec in Hinf.
    assert (Hm2pos : (0 < m1)%Z).
    { destruct (Z.eq_dec m1 0) as [Hz|Hnz]; [|lia].
      rewrite Hz in Hm2. rewrite Z.div_0_l in Hm2
        by (apply Z.pow_nonzero; unfold k2; lia). lia. }
    destruct (Z_le_gt_dec 972 e1) as [Hbig|Hsmall].
    + (* the first exponent is already too large *)
      assert (Hmxpos : (0 < mx)%Z).
      { destruct (Z.eq_dec mx 0) as [Hz|Hnz]; [|lia].
        subst mx. cbn [Zdigits2] in *. unfold k1 in He1.
        unfold fexp, emin, prec, emax in *. lia. }
      pose proof (pow2_digits mx Hmxpos) as Hdig.
      assert (Hd : (1025 <= Zdigits2 mx + ex)%Z).
      { unfold k1 in He1. unfold fexp, emin, prec, emax in *. lia. }
      eapply Qle_trans; [|exact Hlo].
      eapply Qle_trans; [apply (pow2_le 1022 (Zdigits2 mx - 1 + ex)); lia|].
      rewrite pow2_add. pose proof (pow2_pos ex).
      apply Qmult_le_compat_r; [exact Hdig|lra].
    + (* the exponent grew in the second step *)
      pose proof (pow2_digits m1 Hm2pos) as Hdig.
      assert (Hd : (1025 <= Zdigits2 m1 + e1)%Z).
      { unfold k2 in He2. unfold fexp, emin, prec, emax in *. lia. }
      assert (Hbig : pow2 1024 <= inject_Z m1 * pow2 e1).
      { eapply Qle_trans; [apply (pow2_le 1024 (Zdigits2 m1 - 1 + e1)); lia|].
        rewrite pow2_add. apply Qmult_le_compat_r; [exact Hdig|lra]. }
      assert (Hsm : pow2 e1 <= pow2 971) by (apply pow2_le; lia).
      assert (H22 : pow2 1022 + pow2 971 <= pow2 1024).
      { assert (pow2 971 <= pow2 1022) by (apply pow2_le; lia).
        assert (pow2 1024 == 4 * pow2 1022).
        { change 1024%Z with (2 + 1022)%Z. rewrite pow2_add. reflexivity. }
        pose proof (pow2_pos 1022). lra. }
      lra.
Qed.

(** Below [2^1022] the rounding does not overflow. *)
Lemma round_aux_number sx mx ex lx x :
  (0 <= mx)%Z ->
  (ex <= fexp prec emax (Zdigits2 mx + ex))%Z ->
  inject_Z mx * pow2 ex <= x ->
  x <= inject_Z mx * pow2 ex + pow2 ex ->
  x < pow2 1022 ->
  is_number (binary_round_aux prec emax sx mx ex lx) = true.
Proof.
  intros Hm Hk Hlo Hhi Hx.
  pose proof (round_aux_error sx mx ex lx x Hm Hk Hlo Hhi) as Herr.
  destruct (binary_round_aux prec emax sx mx ex lx) as [s|s| |s m e];
    try reflexivity.
  - destruct Herr as [_ Hbig]. lra.
  - contradiction.
Qed.

Lemma digits2_pos_shift p d :
  digits2_pos (Pos.iter xO p d) = (digits2_pos p + d)%positive.
Proof.
  induction d as [|d IH] using Pos.peano_ind.
  - simpl. lia.
  - rewrite Pos.iter_succ. cbn [digits2_pos]. rewrite IH. lia.
Qed.

Lemma value_finite s m e :
  value (S754_finite s m e) == scaled (cond_Zopp s (Zpos m)) e.
Proof.
  unfold value, scaled. destruct s; cbn [cond_Zopp].
  - change (- Zpos m)%Z with (Z.opp (Zpos m)). rewrite inject_Z_opp. reflexivity.
  - reflexivity.
Qed.

Lemma tolerance_nonneg x : 0 <= x -> 0 <= tolerance x.
Proof.
  intros Hx. unfold tolerance.
  pose proof (pow2_pos (-50)). pose proof (pow2_pos (-1072)). nra.
Qed.

#[export] Instance tolerance_proper : Proper (Qeq ==> Qeq) tolerance.
Proof. intros x y H. unfold tolerance. rewrite H. reflexivity. Qed.

(** [round_aux_error], on the signed value of the result. *)
Lemma round_aux_signed sx mx ex lx x :
  (0 <= mx)%Z ->
  (ex <= fexp prec emax (Zdigits2 mx + ex))%Z ->
  inject_Z mx * pow2 ex <= x ->
  x <= inject_Z mx * pow2 ex + pow2 ex ->
  let r := binary_round_aux prec emax sx mx ex lx in
  is_number r = true ->
  Qabs (value r - (if sx then - x else x)) <= tolerance x.
Proof.
  intros Hm Hk Hlo Hhi r Hr. subst r.
  pose proof (round_aux_error sx mx ex lx x Hm Hk Hlo Hhi) as Herr.
  destruct (binary_round_aux prec emax sx mx ex lx) as [s|s| |s m e];
    try discriminate.
  - destruct Herr as [_ Herr]. cbn [value].
    assert (0 <= x).
    { eapply Qle_trans; [|exact Hlo]. apply Qmult_le_0_compat.
      - change 0 with (inject_Z 0). rewrite <- Zle_Qle. exact Hm.
      - pose proof (pow2_pos ex). lra. }
    apply Qabs_Qle_condition. destruct sx; split; lra.
  - destruct Herr as [-> Herr]. cbn [value].
    apply Qabs_Qle_condition in Herr. apply Qabs_Qle_condition.
    destruct sx; split; lra.
Qed.

(** [binary_round] first writes the mantissa at the exponent of the format,
    when that is smaller: the value is kept and [round_aux_error] applies. *)
Lemma binary_round_aligned p e :
  let mz := fst (shl_align p e (fexp prec emax (Zpos (digits2_pos p) + e))) in
  let ez := snd (shl_align p e (fexp prec emax (Zpos (digits2_pos p) + e))) in
  (ez <= fexp prec emax (Zdigits2 (Zpos mz) + ez))%Z /\
  scaled (Zpos mz) ez == scaled (Zpos p) e.
Proof.
  intros mz ez. subst mz ez.
  pose proof (shl_align_value p e (fexp prec emax (Zpos (digits2_pos p) + e))) as Hv.
  split.
  - unfold shl_align.
    destruct (fexp prec emax (Zpos (digits2_pos p) + e) - e)%Z as [|d|d] eqn:Hd;
      cbn [fst snd Zdigits2].
    + lia.
    + lia.
    + rewrite digits2_pos_shift.
      replace (Zpos (digits2_pos p + d) + fexp prec emax (Zpos (digits2_pos p) + e))%Z
        with (Zpos (digits2_pos p) + e)%Z by lia.
      lia.
  - unfold scaled. rewrite Hv. unfold shl_align.
    destruct (fexp prec emax (Zpos (digits2_pos p) + e) - e)%Z as [|d|d] eqn:Hd;
      cbn [fst snd].
    + replace (fexp prec emax (Zpos (digits2_pos p) + e) <? e)%Z with false
        by (symmetry; apply Z.ltb_ge; lia). reflexivity.
    + replace (fexp prec emax (Zpos (digits2_pos p) + e) <? e)%Z with false
        by (symmetry; apply Z.ltb_ge; lia). reflexivity.
    + replace (fexp prec emax (Zpos (digits2_pos p) + e) <? e)%Z with true
        by (symmetry; apply Z.ltb_lt; lia).
      rewrite inject_Z_mult, pow2_Z by lia.
      set (f := fexp prec emax (Zpos (digits2_pos p) + e)).
      assert (Hpe : pow2 e == pow2 (e - f) * pow2 f).
      { rewrite <- pow2_add. replace (e - f + f)%Z with e by lia. reflexivity. }
      rewrite Hpe. ring.
Qed.

(** [binary_round]: the float for [(-1)^s * p * 2^e]. *)
Lemma binary_round_error s p e :
  let r := binary_round prec emax s p e in
  is_number r = true ->
  Qabs (value r - (if s then - scaled (Zpos p) e else scaled (Zpos p) e))
  <= tolerance (scaled (Zpos p) e).
Proof.
  intros r Hr. subst r. unfold binary_round in *.
  pose proof (binary_round_aligned p e) as [He Hval].
  destruct (shl_align p e (fexp prec emax (Zpos (digits2_pos p) + e))) as [mz ez].
  cbn [fst snd] in *.
  pose proof (pow2_pos ez) as Pez.
  pose proof (round_aux_signed s (Zpos mz) ez loc_Exact (scaled (Zpos mz) ez)
                ltac:(lia) He (Qle_refl _) ltac:(unfold scaled; lra) Hr) as Herr.
  destruct s; rewrite Hval in Herr; exact Herr.
Qed.

Lemma binary_round_number s p e :
  scaled (Zpos p) e < pow2 1022 ->
  is_number (binary_round prec emax s p e) = true.
Proof.
  intros Hx. unfold binary_round.
  pose proof (binary_round_aligned p e) as [He Hval].
  destruct (shl_align p e (fexp prec emax (Zpos (digits2_pos p) + e))) as [mz ez].
  cbn [fst snd] in *.
  pose proof (pow2_pos ez) as Pez.
  apply (round_aux_number s (Zpos mz) ez loc_Exact (scaled (Zpos mz) ez));
    [lia|exact He|apply Qle_refl|unfold scaled; lra|rewrite Hval; exact Hx].
Qed.

(** [binary_normalize]: the float for [m * 2^e] is within [tolerance]. *)
Lemma normalize_error m e :
  let r := binary_normalize prec emax m e false in
  is_number r = true ->
  Qabs (value r - scaled m e) <= tolerance (Qabs (scaled m e)).
Proof.
  intros r Hr. subst r. unfold binary_normalize in *.
  assert (Hpos : forall p, 0 <= scaled (Zpos p) e).
  { intros p. unfold scaled. apply Qmult_le_0_compat; [|pose proof (pow2_pos e); lra].
    change 0 with (inject_Z 0). rewrite <- Zle_Qle. lia. }
  destruct m as [|p|p].
  - unfold scaled. cbn [value].
    setoid_replace (0 - inject_Z 0 * pow2 e) with 0 by ring.
    change (Qabs 0) with 0.
    apply tolerance_nonneg. first [apply Qabs_nonneg | apply Qle_refl].
  - rewrite (Qabs_pos _ (Hpos p)). exact (binary_round_error false p e Hr).
  - assert (Hneg : scaled (Zneg p) e == - scaled (Zpos p) e).
    { unfold scaled. change (Zneg p) with (- Zpos p)%Z. rewrite inject_Z_opp. ring. }
    rewrite Hneg, Qabs_opp, (Qabs_pos _ (Hpos p)).
    exact (binary_round_error true p e Hr).
Qed.

Lemma normalize_number m e :
  Qabs (scaled m e) < pow2 1022 ->
  is_number (binary_normalize prec emax m e false) = true.
Proof.
  intros Hx. unfold binary_normalize.
  assert (Hpos : forall p, 0 <= scaled (Zpos p) e).
  { intros p. unfold scaled. apply Qmult_le_0_compat; [|pose proof (pow2_pos e); lra].
    change 0 with (inject_Z 0). rewrite <- Zle_Qle. lia. }
  destruct m as [|p|p]; [reflexivity| |].
  - apply binary_round_number. rewrite (Qabs_pos _ (Hpos p)) in Hx. exact Hx.
  - apply binary_round_number.
    assert (Hneg : scaled (Zneg p) e == - scaled (Zpos p) e).
    { unfold scaled. change (Zneg p) with (- Zpos p)%Z. rewrite inject_Z_opp. ring. }
    rewrite Hneg, Qabs_opp, (Qabs_pos _ (Hpos p)) in Hx. exact Hx.
Qed.

Lemma scaled_opp m e : scaled (- m) e == - scaled m e.
Proof. unfold scaled. rewrite inject_Z_opp. ring. Qed.

Lemma scaled_sub a b e : scaled (a - b) e == scaled a e - scaled b e.
Proof. unfold scaled, Z.sub. rewrite inject_Z_plus, inject_Z_opp. ring. Qed.

Lemma scaled_cond_Zopp s m e :
  scaled (cond_Zopp s m) e == if s then - scaled m e else scaled m e.
Proof. destruct s; cbn [cond_Zopp]; [apply scaled_opp|reflexivity]. Qed.

(** Writing a mantissa at a smaller exponent keeps the value. *)
Lemma shl_align_scaled m e e' :
  (e' <= e)%Z ->
  scaled (Zpos (fst (shl_align m e e'))) e' == scaled (Zpos m) e.
Proof.
  intros Hle. unfold scaled. rewrite shl_align_value.
  destruct (Z.ltb_spec e' e) as [Hlt|Hge].
  - rewrite inject_Z_mult, pow2_Z by lia.
    assert (Hpe : pow2 e == pow2 (e - e') * pow2 e').
    { rewrite <- pow2_add. replace (e - e' + e')%Z with e by lia. reflexivity. }
    rewrite Hpe. ring.
  - replace e' with e by lia. reflexivity.
Qed.

Lemma sub_error x y :
  is_number x = true -> is_number y = true ->
  is_number (sub x y) = true ->
  Qabs (value (sub x y) - (value x - value y)) <= tolerance (Qabs (value x - value y)).
Proof.
  intros Hx Hy Hr.
  assert (Hexact : forall r, value r == value x - value y ->
            Qabs (value r - (value x - value y)) <= tolerance (Qabs (value x - value y))).
  { intros r Hreq. rewrite Hreq.
    setoid_replace (value x - value y - (value x - value y)) with 0 by ring.
    change (Qabs 0) with 0. apply tolerance_nonneg, Qabs_nonneg. }
  unfold sub in *.
  destruct x as [sx|sx| |sx mx ex]; try discriminate;
    destruct y as [sy|sy| |sy my ey]; try discriminate.
  - apply Hexact. destruct sx, sy; reflexivity.
  - apply Hexact. cbn [SFsub]. rewrite !value_finite, !scaled_cond_Zopp.
    cbn [value]. destruct sy; cbn [negb]; ring.
  - apply Hexact. cbn [SFsub value]. ring.
  - cbn [SFsub] in *.
    set (ez := Z.min ex ey) in *.
    set (a := cond_Zopp sx (Zpos (fst (shl_align mx ex ez)))) in *.
    set (b := cond_Zopp sy (Zpos (fst (shl_align my ey ez)))) in *.
    assert (Ha : scaled a ez == value (S754_finite sx mx ex)).
    { unfold a. rewrite value_finite, !scaled_cond_Zopp.
      destruct sx; rewrite (shl_align_scaled mx ex ez) by (unfold ez; lia);
        reflexivity. }
    assert (Hb : scaled b ez == value (S754_finite sy my ey)).
    { unfold b. rewrite value_finite, !scaled_cond_Zopp.
      destruct sy; rewrite (shl_align_scaled my ey ez) by (unfold ez; lia);
        reflexivity. }
    rewrite <- Ha, <- Hb, <- scaled_sub.
    exact (normalize_error (a - b) ez Hr).
Qed.

Lemma of_int_error n :
  is_number (of_int n) = true ->
  Qabs (value (of_int n) - inject_Z n) <= tolerance (Qabs (inject_Z n)).
Proof.
  intros Hr. pose proof (normalize_error n 0 Hr) as H.
  unfold scaled in H. change (pow2 0) with 1 in H.
  setoid_replace (inject_Z n * 1) with (inject_Z n) in H by ring.
  exact H.
Qed.

Lemma digits_lower k q : (0 <= k)%Z -> (2 ^ k <= q)%Z -> (k + 1 <= Zdigits2 q)%Z.
Proof.
  intros Hk Hq.
  assert (0 < 2 ^ k)%Z by (apply Z.pow_pos_nonneg; lia).
  destruct q as [|p|p]; try lia. cbn [Zdigits2].
  pose proof (digits2_pos_bounds p) as [_ Hhi].
  destruct (Z_lt_le_dec k (Zpos (digits2_pos p))) as [Hlt|Hge]; [lia|].
  assert (2 ^ Zpos (digits2_pos p) <= 2 ^ k)%Z by (apply Z.pow_le_mono_r; lia).
  lia.
Qed.

Lemma scaled_pos p e : 0 < scaled (Zpos p) e.
Proof.
  unfold scaled. apply Qmult_lt_0_compat; [|apply pow2_pos].
  change 0 with (inject_Z 0). rewrite <- Zlt_Qlt. lia.
Qed.

(** The integer quotient the division rounds: it is not negative, it sits at
    an exponent the format allows, and the true quotient lies between it and
    its successor. *)
Lemma div_core_spec mx ex my ey :
  let '(q, e', l) := SFdiv_core_binary prec emax (Zpos mx) ex (Zpos my) ey in
  (0 <= q)%Z /\
  (e' <= fexp prec emax (Zdigits2 q + e'))%Z /\
  inject_Z q * pow2 e' * scaled (Zpos my) ey <= scaled (Zpos mx) ex /\
  scaled (Zpos mx) ex <= (inject_Z q * pow2 e' + pow2 e') * scaled (Zpos my) ey.
Proof.
  unfold SFdiv_core_binary. cbn [Zdigits2].
  set (d1 := Zpos (digits2_pos mx)). set (d2 := Zpos (digits2_pos my)).
  set (e' := Z.min (fexp prec emax (d1 + ex - (d2 + ey))) (ex - ey)).
  set (s := (ex - ey - e')%Z).
  assert (Hs : (0 <= s)%Z) by (unfold s, e'; lia).
  set (m' := match s with
             | 0%Z => Zpos mx
             | Zpos _ => Z.shiftl (Zpos mx) s
             | Zneg _ => 0%Z
             end).
  assert (Hm' : m' = (Zpos mx * 2 ^ s)%Z).
  { unfold m'. clear m'. assert (Hseq : s = (ex - ey - e')%Z) by reflexivity.
    clearbody s. destruct s as [|ps|ps]; try lia.
    - rewrite Z.shiftl_mul_pow2 by lia. reflexivity. }
  pose proof (Z_div_mod m' (Zpos my) ltac:(lia)) as Hdm.
  destruct (Z.div_eucl m' (Zpos my)) as [q r]. destruct Hdm as [Hdm Hr].
  assert (Hpow : (0 < 2 ^ s)%Z) by (apply Z.pow_pos_nonneg; lia).
  assert (Hm'pos : (0 < m')%Z) by (rewrite Hm'; lia).
  assert (Hq : (0 <= q)%Z) by nia.
  pose proof (digits2_pos_bounds mx) as [Hlo1 Hhi1].
  pose proof (digits2_pos_bounds my) as [Hlo2 Hhi2].
  fold d1 in Hlo1, Hhi1. fold d2 in Hlo2, Hhi2.
  split; [exact Hq|]. split.
  - destruct (Z_le_gt_dec e' (-1074)) as [Hsub|Hnorm].
    + unfold fexp, emin, prec, emax. lia.
    + assert (He' : (e' <= d1 + ex - (d2 + ey) - 53)%Z).
      { unfold e', fexp, emin, prec, emax in *. lia. }
      assert (Hs' : (53 - d1 + d2 <= s)%Z) by (unfold s; lia).
      assert (Hq52 : (2 ^ 52 <= q)%Z).
      { assert (Hmy : (2 ^ 52 * Zpos my <= m')%Z).
        { rewrite Hm'.
          assert (H1 : (2 ^ (d1 - 1) * 2 ^ s <= Zpos mx * 2 ^ s)%Z)
            by (apply Z.mul_le_mono_nonneg_r; lia).
          assert (H2 : (2 ^ 52 * Zpos my <= 2 ^ 52 * 2 ^ d2)%Z)
            by (apply Z.mul_le_mono_nonneg_l; lia).
          rewrite <- Z.pow_add_r in H1, H2 by (unfold d1, d2; lia).
          assert (H3 : (2 ^ (52 + d2) <= 2 ^ (d1 - 1 + s))%Z)
            by (apply Z.pow_le_mono_r; lia).
          lia. }
        assert (Hlt : (2 ^ 52 * Zpos my < Zpos my * (q + 1))%Z) by lia.
        assert (2 ^ 52 < q + 1)%Z by nia. lia. }
      pose proof (digits_lower 52 q ltac:(lia) Hq52) as Hd.
      unfold fexp, emin, prec, emax. lia.
  - assert (Hex : pow2 ex == pow2 s * pow2 e' * pow2 ey).
    { rewrite <- !pow2_add. replace (s + e' + ey)%Z with ex by (unfold s; lia).
      reflexivity. }
    assert (Hmx : scaled (Zpos mx) ex == inject_Z m' * pow2 e' * pow2 ey).
    { unfold scaled. rewrite Hex, Hm', inject_Z_mult, pow2_Z by lia. ring. }
    assert (Hlo : inject_Z (Zpos my) * inject_Z q <= inject_Z m').
    { rewrite <- inject_Z_mult, <- Zle_Qle. lia. }
    assert (Hhi : inject_Z m' <= inject_Z (Zpos my) * inject_Z q + inject_Z (Zpos my)).
    { rewrite <- inject_Z_mult, <- inject_Z_plus, <- Zle_Qle. lia. }
    rewrite Hmx. unfold scaled.
    pose proof (pow2_pos e') as Pe'. pose proof (pow2_pos ey) as Pey.
    assert (HP : 0 < pow2 e' * pow2 ey) by nra.
    split.
    + setoid_replace (inject_Z q * pow2 e' * (inject_Z (Zpos my) * pow2 ey))
        with (inject_Z (Zpos my) * inject_Z q * (pow2 e' * pow2 ey)) by ring.
      setoid_replace (inject_Z m' * pow2 e' * pow2 ey)
        with (inject_Z m' * (pow2 e' * pow2 ey)) by ring.
      apply Qmult_le_compat_r; [exact Hlo|lra].
    + setoid_replace ((inject_Z q * pow2 e' + pow2 e') * (inject_Z (Zpos my) * pow2 ey))
        with ((inject_Z (Zpos my) * inject_Z q + inject_Z (Zpos my)) * (pow2 e' * pow2 ey))
        by ring.
      setoid_replace (inject_Z m' * pow2 e' * pow2 ey)
        with (inject_Z m' * (pow2 e' * pow2 ey)) by ring.
      apply Qmult_le_compat_r; [exact Hhi|lra].
Qed.

Lemma div_error x sy my ey :
  is_number x = true ->
  is_number (div x (S754_finite sy my ey)) = true ->
  Qabs (value (div x (S754_finite sy my ey)) - value x / value (S754_finite sy my ey))
  <= tolerance (Qabs (value x / value (S754_finite sy my ey))).
Proof.
  intros Hx Hr. unfold div in *.
  pose proof (scaled_pos my ey) as Ypos.
  destruct x as [sx|sx| |sx mx ex]; cbn [is_number] in Hx; try discriminate Hx.
  - cbn [SFdiv].
    set (y := value (S754_finite sy my ey)). cbn [value].
    setoid_replace (0 - 0 / y) with 0 by (unfold Qdiv; ring).
    change (Qabs 0) with 0. apply tolerance_nonneg.
    first [apply Qabs_nonneg | apply Qle_refl].
  - cbn [SFdiv] in *.
    pose proof (div_core_spec mx ex my ey) as Hcore.
    destruct (SFdiv_core_binary prec emax (Zpos mx) ex (Zpos my) ey) as [[q e'] l].
    destruct Hcore as (Hq & He' & Hlo & Hhi).
    pose proof (scaled_pos mx ex) as Xpos.
    set (X := scaled (Zpos mx) ex / scaled (Zpos my) ey).
    assert (HXpos : 0 <= X).
    { unfold X. apply Qlt_le_weak. apply Qlt_shift_div_l; [exact Ypos|]. lra. }
    assert (HloX : inject_Z q * pow2 e' <= X).
    { unfold X. apply Qle_shift_div_l; [exact Ypos|exact Hlo]. }
    assert (HhiX : X <= inject_Z q * pow2 e' + pow2 e').
    { unfold X. apply Qle_shift_div_r; [exact Ypos|exact Hhi]. }
    pose proof (round_aux_signed (xorb sx sy) q e' l X Hq He' HloX HhiX Hr) as Herr.
    assert (Hquot : value (S754_finite sx mx ex) / value (S754_finite sy my ey)
                    == if xorb sx sy then - X else X).
    { rewrite !value_finite, !scaled_cond_Zopp. unfold X.
      destruct sx, sy; cbn [xorb]; field; lra. }
    rewrite Hquot.
    assert (Habs : Qabs (if xorb sx sy then - X else X) == X).
    { destruct (xorb sx sy); [rewrite Qabs_opp|]; apply Qabs_pos; exact HXpos. }
    rewrite Habs. exact Herr.
Qed.

Lemma scale_down (N P t : Q) : 1 <= N -> 0 <= t -> N * P <= t -> P <= t.
Proof.
  intros HN Ht H. destruct (Qlt_le_dec 0 P) as [Hp|Hp]; [nra|lra].
Qed.

(** The error of a rounded quotient of a rounded numerator by a rounded
    denominator. *)
Lemma quotient_error (D a Y N v eps tau : Q) :
  0 < eps -> eps <= 1 # 16 -> 0 <= tau -> tau <= eps ->
  1 <= N -> 0 < Y ->
  Qabs (a - D) <= Qabs D * eps + tau ->
  Qabs (Y - N) <= N * eps + tau ->
  Qabs (v - a / Y) <= Qabs (a / Y) * eps + tau ->
  Qabs (v - D / N) <= Qabs (D / N) * (8 * eps) + 4 * tau.
Proof.
  intros Heps Heps' Htau Htau' HN HY Ha HYN Hv.
  set (c := a / Y) in *. set (Q0 := D / N).
  assert (HNne : ~ N == 0) by lra.
  assert (HYne : ~ Y == 0) by lra.
  assert (HD : D == Q0 * N) by (unfold Q0; field; exact HNne).
  assert (Hca : a == c * Y) by (unfold c; field; exact HYne).
  (* |D| = |Q0| * N *)
  assert (HabsD : Qabs D == Qabs Q0 * N).
  { rewrite HD, Qabs_Qmult, (Qabs_pos N) by lra. reflexivity. }
  (* (c - Q0) * N = (a - D) - c * (Y - N) *)
  assert (S1 : (c - Q0) * N == (a - D) - c * (Y - N)).
  { rewrite HD, Hca. ring. }
  assert (S2 : Qabs (c - Q0) * N <= Qabs (a - D) + Qabs c * Qabs (Y - N)).
  { rewrite <- (Qabs_pos N) at 1 by lra. rewrite <- Qabs_Qmult, S1.
    eapply Qle_trans; [apply Qabs_triangle|].
    rewrite Qabs_opp, Qabs_Qmult. apply Qle_refl. }
  pose proof (Qabs_nonneg (c - Q0)) as Tnn. pose proof (Qabs_nonneg Q0) as Znn.
  pose proof (Qabs_nonneg c) as Knn. pose proof (Qabs_nonneg (Y - N)) as Ynn.
  assert (K : Qabs c <= Qabs Q0 + Qabs (c - Q0)).
  { setoid_replace c with (Q0 + (c - Q0)) at 1 by ring. apply Qabs_triangle. }
  assert (S7 : Qabs (v - Q0) <= Qabs (v - c) + Qabs (c - Q0)).
  { setoid_replace (v - Q0) with ((v - c) + (c - Q0)) by ring. apply Qabs_triangle. }
  rewrite HabsD in Ha.
  set (t := Qabs (c - Q0)) in *. set (z := Qabs Q0) in *. set (k := Qabs c) in *.
  set (dy := Qabs (Y - N)) in *. set (da := Qabs (a - D)) in *.
  set (dv := Qabs (v - c)) in *. set (g := Qabs (v - Q0)) in *.
  clearbody t z k dy da dv g. clear - Heps Heps' Htau Htau' HN Ha HYN Hv S2 Tnn Znn Knn Ynn K S7.
  assert (S3 : k * dy <= k * (N * eps + tau)) by nra.
  assert (S4 : N * (t - z * eps - k * (2 * eps)) <= tau).
  { assert (E1 : k * tau <= k * eps) by nra.
    assert (E2 : 0 <= k * eps) by nra.
    assert (E3 : k * eps <= k * eps * N) by nra.
    assert (E4 : N * (k * (2 * eps)) == 2 * (k * eps * N)) by ring.
    assert (E5 : N * (t - z * eps - k * (2 * eps))
                 == t * N - z * N * eps - N * (k * (2 * eps))) by ring.
    rewrite E5, E4. lra. }
  assert (S5 : t - z * eps - k * (2 * eps) <= tau).
  { apply (scale_down N); assumption. }
  assert (S6 : t <= 6 * (z * eps) + 2 * tau).
  { assert (k * eps <= (z + t) * eps) by nra.
    assert (t * eps <= t * (1 # 16)) by nra.
    nra. }
  assert (S8 : k * eps <= (z + t) * eps) by nra.
  assert (S9 : t * eps <= t * (1 # 16)) by nra.
  assert (S10 : 0 <= z * eps) by nra.
  lra.
Qed.

Lemma pow2_47 : pow2 (-47) == 8 * pow2 (-50).
Proof. change (-47)%Z with (3 + -50)%Z. rewrite pow2_add. reflexivity. Qed.

Lemma pow2_1070 : pow2 (-1070) == 4 * pow2 (-1072).
Proof. change (-1070)%Z with (2 + -1072)%Z. rewrite pow2_add. reflexivity. Qed.

(** What [(e - s) / n] returns on binary64 against the exact quotient of the
    two readings: a relative error of [2^-47] at most, and [2^-1070] more when
    the result is too small for the full precision. *)
Theorem truediv_sub_error (s e : float) (n : Z) (v : float) :
  is_number s = true -> is_number e = true ->
  (0 < n)%Z ->
  float_truediv (sub e s) n = inr v ->
  is_number v = true ->
  Qabs (value v - (value e - value s) / inject_Z n)
  <= Qabs ((value e - value s) / inject_Z n) * pow2 (-47) + pow2 (-1070).
Proof.
  intros Hs He Hn Hv Hnum.
  unfold float_truediv in Hv.
  pose proof (of_int_nonzero n ltac:(lia)) as Hy.
  replace (n <? 0)%Z with false in Hy by (symmetry; apply Z.ltb_ge; lia).
  pose proof (of_int_error n) as HYN.
  destruct (of_int n) as [sy|sy| |sy my ey] eqn:Hof; cbn [nonzero_sign_is] in Hy;
    try contradiction; try discriminate.
  subst sy. injection Hv as <-.
  assert (Hr1 : is_number (sub e s) = true).
  { destruct (sub e s) as [s1|s1| |s1 m1 e1]; try reflexivity;
      cbn in Hnum; discriminate. }
  pose proof (sub_error e s He Hs Hr1) as Ha.
  pose proof (div_error (sub e s) false my ey Hr1 Hnum) as Hd.
  specialize (HYN eq_refl).
  assert (HN : 1 <= inject_Z n).
  { change 1 with (inject_Z 1). rewrite <- Zle_Qle. lia. }
  rewrite (Qabs_pos (inject_Z n)) in HYN by lra.
  assert (HY : 0 < value (S754_finite false my ey)).
  { cbn [value]. apply (scaled_pos my ey). }
  unfold tolerance in Ha, HYN, Hd.
  rewrite pow2_47, pow2_1070.
  apply (quotient_error (value e - value s) (value (sub e s))
           (value (S754_finite false my ey)) (inject_Z n)
           (value (div (sub e s) (S754_finite false my ey)))
           (pow2 (-50)) (pow2 (-1072))).
  - apply pow2_pos.
  - change (1 # 16) with (pow2 (-4)). apply pow2_le. lia.
  - apply Qlt_le_weak, pow2_pos.
  - apply pow2_le. lia.
  - exact HN.
  - exact HY.
  - exact Ha.
  - exact HYN.
  - exact Hd.
Qed.

Lemma sub_number x y :
  is_number x = true -> is_number y = true ->
  Qabs (value x - value y) < pow2 1022 ->
  is_number (sub x y) = true.
Proof.
  intros Hx Hy Hb. unfold sub.
  destruct x as [sx|sx| |sx mx ex]; try discriminate;
    destruct y as [sy|sy| |sy my ey]; try discriminate.
  - destruct sx, sy; reflexivity.
  - reflexivity.
  - reflexivity.
  - cbn [SFsub].
    set (ez := Z.min ex ey) in *.
    set (a := cond_Zopp sx (Zpos (fst (shl_align mx ex ez)))) in *.
    set (b := cond_Zopp sy (Zpos (fst (shl_align my ey ez)))) in *.
    assert (Ha : scaled a ez == value (S754_finite sx mx ex)).
    { unfold a. rewrite value_finite, !scaled_cond_Zopp.
      destruct sx; rewrite (shl_align_scaled mx ex ez) by (unfold ez; lia);
        reflexivity. }
    assert (Hbq : scaled b ez == value (S754_finite sy my ey)).
    { unfold b. rewrite value_finite, !scaled_cond_Zopp.
      destruct sy; rewrite (shl_align_scaled my ey ez) by (unfold ez; lia);
        reflexivity. }
    apply normalize_number. rewrite scaled_sub, Ha, Hbq. exact Hb.
Qed.

Lemma of_int_number n :
  Qabs (inject_Z n) < pow2 1022 -> is_number (of_int n) = true.
Proof.
  intros Hb. apply normalize_number. unfold scaled. change (pow2 0) with 1.
  setoid_replace (inject_Z n * 1) with (inject_Z n) by ring. exact Hb.
Qed.

Lemma div_number x sy my ey :
  is_number x = true ->
  Qabs (value x / value (S754_finite sy my ey)) < pow2 1022 ->
  is_number (div x (S754_finite sy my ey)) = true.
Proof.
  intros Hx Hb. unfold div.
  pose proof (scaled_pos my ey) as Ypos.
  destruct x as [sx|sx| |sx mx ex]; cbn [is_number] in Hx; try discriminate Hx.
  - reflexivity.
  - cbn [SFdiv].
    pose proof (div_core_spec mx ex my ey) as Hcore.
    destruct (SFdiv_core_binary prec emax (Zpos mx) ex (Zpos my) ey) as [[q e'] l].
    destruct Hcore as (Hq & He' & Hlo & Hhi).
    pose proof (scaled_pos mx ex) as Xpos.
    set (X := scaled (Zpos mx) ex / scaled (Zpos my) ey).
    assert (HXpos : 0 <= X).
    { unfold X. apply Qlt_le_weak. apply Qlt_shift_div_l; [exact Ypos|]. lra. }
    assert (HloX : inject_Z q * pow2 e' <= X).
    { unfold X. apply Qle_shift_div_l; [exact Ypos|exact Hlo]. }
    assert (HhiX : X <= inject_Z q * pow2 e' + pow2 e').
    { unfold X. apply Qle_shift_div_r; [exact Ypos|exact Hhi]. }
    assert (Hquot : value (S754_finite sx mx ex) / value (S754_finite sy my ey)
                    == if xorb sx sy then - X else X).
    { rewrite !value_finite, !scaled_cond_Zopp. unfold X.
      destruct sx, sy; cbn [xorb]; field; lra. }
    assert (Habs : Qabs (if xorb sx sy then - X else X) == X).
    { destruct (xorb sx sy); [rewrite Qabs_opp|]; apply Qabs_pos; exact HXpos. }
    rewrite Hquot, Habs in Hb.
    exact (round_aux_number (xorb sx sy) q e' l X Hq He' HloX HhiX Hb).
Qed.

(** With readings below [2^1000] in magnitude and at most [2^1000] passes,
    [(e - s) / n] returns a number. *)
Theorem truediv_sub_returns (s e : float) (n : Z) :
  is_number s = true -> is_number e = true ->
  Qabs (value s) <= pow2 1000 -> Qabs (value e) <= pow2 1000 ->
  (0 < n)%Z -> inject_Z n <= pow2 1000 ->
  exists v, float_truediv (sub e s) n = inr v /\ is_number v = true.
Proof.
  intros Hs He Bs Be Hn Bn.
  assert (P1000 : pow2 1000 * 4194304 == pow2 1022).
  { change 1022%Z with (1000 + 22)%Z. rewrite pow2_add. reflexivity. }
  pose proof (pow2_pos 1000) as Ppos.
  assert (HN : 1 <= inject_Z n).
  { change 1 with (inject_Z 1). rewrite <- Zle_Qle. lia. }
  assert (Hofn : is_number (of_int n) = true).
  { apply of_int_number. rewrite Qabs_pos by lra. lra. }
  pose proof (of_int_nonzero n ltac:(lia)) as Hy.
  replace (n <? 0)%Z with false in Hy by (symmetry; apply Z.ltb_ge; lia).
  pose proof (of_int_error n Hofn) as HYN.
  rewrite (Qabs_pos (inject_Z n)) in HYN by lra.
  unfold float_truediv.
  destruct (of_int n) as [sy|sy| |sy my ey] eqn:Hof; cbn [nonzero_sign_is] in Hy;
    try contradiction; try discriminate.
  subst sy.
  assert (HD : Qabs (value e - value s) <= 2 * pow2 1000).
  { eapply Qle_trans; [apply Qabs_triangle|]. rewrite Qabs_opp. lra. }
  assert (Hr1 : is_number (sub e s) = true).
  { apply sub_number; [exact He|exact Hs|]. lra. }
  pose proof (sub_error e s He Hs Hr1) as Ha.
  pose proof (pow2_pos (-50)) as P50. pose proof (pow2_pos (-1072)) as Pt.
  assert (P50' : pow2 (-50) <= 1 # 16).
  { change (1 # 16) with (pow2 (-4)). apply pow2_le. lia. }
  assert (Pt' : pow2 (-1072) <= 1 # 16).
  { change (1 # 16) with (pow2 (-4)). apply pow2_le. lia. }
  unfold tolerance in Ha, HYN.
  assert (Habs_a : Qabs (value (sub e s)) <= 3 * pow2 1000).
  { setoid_replace (value (sub e s))
      with ((value (sub e s) - (value e - value s)) + (value e - value s)) by ring.
    eapply Qle_trans; [apply Qabs_triangle|].
    pose proof (Qabs_nonneg (value e - value s)).
    assert (Qabs (value e - value s) * pow2 (-50) <= Qabs (value e - value s) * (1 # 16))
      by (apply Qmult_le_l_weak || nra).
    lra. }
  set (Y := value (S754_finite false my ey)) in *.
  assert (HYhalf : 1 # 2 <= Y).
  { apply Qabs_Qle_condition in HYN. destruct HYN as [HYN _].
    assert (inject_Z n * pow2 (-50) <= inject_Z n * (1 # 16)) by nra.
    lra. }
  exists (div (sub e s) (S754_finite false my ey)). split; [reflexivity|].
  apply div_number; [exact Hr1|]. fold Y.
  unfold Qdiv. rewrite Qabs_Qmult.
  assert (HYinv : Qabs (/ Y) <= 2).
  { rewrite Qabs_pos.
    - apply Qle_shift_inv_r; lra.
    - apply Qlt_le_weak, Qinv_lt_0_compat. lra. }
  pose proof (Qabs_nonneg (value (sub e s))) as A0.
  pose proof (Qabs_nonneg (/ Y)) as Y0.
  assert (Qabs (value (sub e s)) * Qabs (/ Y) <= 3 * pow2 1000 * 2) by nra.
  lra.
Qed.

End Binary64Facts.

(** ** Facts about the monad and the loop *)

Section HarnessFacts.

Context {T : Type} {arith : TimeArith T}.
Variables World Obj Img Exc : Type.
Variable images : Obj -> option Img.
Variable time_time : World -> T.
Variable pipeline : Pipeline World Obj Exc.

Lemma timed_body_returns c i w r w' :
  pipeline c w = (Returns r, w') ->
  timed_body (T:=T) pipeline c i w = (inr tt, w', [EvCall c]).
Proof.
  intros Hp. unfold timed_body, bind, call, ret. rewrite Hp. reflexivity.
Qed.

Lemma timed_body_raises c i w e w' :
  pipeline c w = (Raises e, w') ->
  timed_body (T:=T) pipeline c i w = (inl (Propagated e), w', [EvCall c]).
Proof.
  intros Hp. unfold timed_body, bind, call. rewrite Hp. reflexivity.
Qed.

Lemma for_loop_step k i (body : Z -> M (T:=T) World Exc unit) w :
  for_loop (S k) i body w =
  match body i w with
  | (inl e, w1, t1) => (inl e, w1, t1)
  | (inr _, w1, t1) =>
      let '(r, w2, t2) := for_loop k (i + 1)%Z body w1 in (r, w2, t1 ++ t2)
  end.
Proof. reflexivity. Qed.

(** All [k] calls return: the loop returns after exactly [k] calls. *)
Lemma for_loop_returns c k :
  forall i w w',
    world_after pipeline c k w = Some w' ->
    for_loop k i (timed_body (T:=T) pipeline c) w = (inr tt, w', repeat (EvCall c) k).
Proof.
  induction k as [|k IH]; intros i w w' Hw.
  - simpl in Hw. injection Hw as <-. reflexivity.
  - simpl in Hw. rewrite for_loop_step.
    destruct (pipeline c w) as [[r|e] w1] eqn:Hp; [|discriminate].
    rewrite (timed_body_returns c i w r w1 Hp).
    rewrite (IH (i + 1)%Z w1 w' Hw). reflexivity.
Qed.

(** The first [j] calls return and the next one raises: the loop stops
    there, after [j + 1] calls. *)
Lemma for_loop_raises c k :
  forall j i w wj e wj',
    (j < k)%nat ->
    world_after pipeline c j w = Some wj ->
    pipeline c wj = (Raises e, wj') ->
    for_loop k i (timed_body (T:=T) pipeline c) w =
    (inl (Propagated e), wj', repeat (EvCall c) (S j)).
Proof.
  induction k as [|k IH]; intros j i w wj e wj' Hlt Hw Hp; [lia|].
  rewrite for_loop_step. destruct j as [|j].
  - simpl in Hw. injection Hw as <-.
    rewrite (timed_body_raises c i w e wj' Hp). reflexivity.
  - simpl in Hw.
    destruct (pipeline c w) as [[r|e0] w1] eqn:Hp0; [|discriminate].
    rewrite (timed_body_returns c i w r w1 Hp0).
    rewrite (IH j (i + 1)%Z w1 wj e wj' ltac:(lia) Hw Hp). reflexivity.
Qed.

(** Each run of the loop is one of the two. *)
Lemma world_after_cases c k :
  forall w,
    (exists w', world_after pipeline c k w = Some w') \/
    (exists j wj e wj',
        (j < k)%nat /\ world_after pipeline c j w = Some wj /\
        pipeline c wj = (Raises e, wj')).
Proof.
  induction k as [|k IH]; intros w.
  - left. exists w. reflexivity.
  - destruct (pipeline c w) as [[r|e] w1] eqn:Hp.
    + destruct (IH w1) as [[w' Hw]|(j & wj & e & wj' & Hlt & Hw & Hr)].
      * left. exists w'. simpl. rewrite Hp. exact Hw.
      * right. exists (S j), wj, e, wj'. simpl. rewrite Hp.
        repeat split; [lia|exact Hw|exact Hr].
    + right. exists O, w, e, w1. repeat split; [lia|exact Hp].
Qed.

Lemma replay_app (tr1 tr2 : list (Event T)) (w : World) :
  replay pipeline (tr1 ++ tr2) w = replay pipeline tr2 (replay pipeline tr1 w).
Proof.
  revert w. induction tr1 as [|[c|a|t] tr1 IH]; intros w; simpl; auto.
Qed.

Lemma replay_calls_returning c k :
  forall w w',
    world_after pipeline c k w = Some w' ->
    replay pipeline (repeat (EvCall (T:=T) c) k) w = w'.
Proof.
  induction k as [|k IH]; intros w w' Hw; simpl in *.
  - congruence.
  - destruct (pipeline c w) as [[r|e] w1] eqn:Hp; [|discriminate].
    simpl. apply IH. exact Hw.
Qed.

Lemma calls_of_app (tr1 tr2 : list (Event T)) :
  calls_of (tr1 ++ tr2) = calls_of tr1 ++ calls_of tr2.
Proof.
  induction tr1 as [|[c|a|t] tr1 IH]; simpl; auto. now rewrite IH.
Qed.

Lemma calls_of_repeat c k :
  calls_of (repeat (EvCall (T:=T) c) k) = repeat c k.
Proof. induction k as [|k IH]; simpl; auto. now rewrite IH. Qed.

Lemma timestamps_app (tr1 tr2 : list (Event T)) :
  timestamps (tr1 ++ tr2) = (timestamps tr1 + timestamps tr2)%nat.
Proof. unfold timestamps. rewrite filter_app, length_app. reflexivity. Qed.

Lemma timestamps_repeat_call c k :
  timestamps (repeat (EvCall (T:=T) c) k) = O.
Proof. induction k as [|k IH]; simpl; auto. Qed.

Lemma always_succeeds_returns c w :
  always_succeeds images pipeline ->
  exists r i, pipeline c w = (Returns r, snd (pipeline c w)) /\ images r = Some i.
Proof.
  intros Hok. destruct (Hok c w) as (r & i & Hr & Hi). exists r, i.
  split; [|exact Hi]. destruct (pipeline c w) as [o w']. simpl in *. now subst.
Qed.

Lemma always_succeeds_world_after c k :
  always_succeeds images pipeline ->
  forall w, exists w', world_after pipeline c k w = Some w'.
Proof.
  intros Hok. induction k as [|k IH]; intros w.
  - exists w. reflexivity.
  - destruct (always_succeeds_returns c w Hok) as (r & i & Hp & _).
    destruct (IH (snd (pipeline c w))) as [w' Hw]. exists w'.
    simpl. rewrite Hp. exact Hw.
Qed.

(** *** The harness, statement by statement *)

Section Run.

Variable the_prompt : string.
Variable nb_pass : Z.
Variable steps : Z.

Let warm : Call := warmup_call the_prompt.
Let timed : Call := timed_call the_prompt steps.
Let run (w : World) : Run (T:=T) World Exc T :=
  elapsed_time images time_time pipeline the_prompt nb_pass steps w.

Lemma truediv_run x n (w : World) :
  truediv (Exc:=Exc) x n w = (division_result Exc x n, w, []).
Proof.
  unfold truediv.
  destruct (division_result Exc x n) as [e|v]; reflexivity.
Qed.

Lemma elapsed_time_eq w :
  run w =
  match pipeline warm w with
  | (Raises e, w1) => (inl (Propagated e), w1, [EvCall warm])
  | (Returns r, w1) =>
      match images r with
      | None =>
          (inl (AttributeError "images"%string), w1,
           [EvCall warm; EvGetattr "images"%string])
      | Some _ =>
          match for_loop (Z.to_nat nb_pass) 0%Z (timed_body pipeline timed) w1 with
          | (inl e, w2, tr) =>
              (inl e, w2,
               EvCall warm :: EvGetattr "images"%string
                 :: EvTime (time_time w1) :: tr)
          | (inr _, w2, tr) =>
              (division_result Exc (t_sub (time_time w2) (time_time w1)) nb_pass,
               w2,
               EvCall warm :: EvGetattr "images"%string
                 :: EvTime (time_time w1) :: tr ++ [EvTime (time_time w2)])
          end
      end
  end.
Proof.
  unfold run, elapsed_time, for_range. fold warm. fold timed.
  change (fun _ : Z => bind (call pipeline timed) (fun _ => ret tt))
    with (timed_body (T:=T) pipeline timed).
  unfold bind at 1. unfold call at 1.
  destruct (pipeline warm w) as [[r|e] w1]; [|reflexivity].
  unfold bind at 1. unfold getattr_images at 1.
  destruct (images r) as [i|]; [|reflexivity].
  unfold bind at 1. unfold time at 1.
  unfold bind at 1.
  destruct (for_loop (Z.to_nat nb_pass) 0%Z (timed_body pipeline timed) w1)
    as [[[e|u] w2] tr]; [reflexivity|].
  unfold bind at 1. unfold time at 1.
  rewrite truediv_run. simpl. rewrite ?app_nil_r. reflexivity.
Qed.

(** The warm-up call raises. *)
Lemma run_warmup_raises w e w1 :
  pipeline warm w = (Raises e, w1) ->
  run w = (inl (Propagated e), w1, [EvCall warm]).
Proof. intros Hp. rewrite elapsed_time_eq, Hp. reflexivity. Qed.

(** The warm-up result has no [images]. *)
Lemma run_no_images w r w1 :
  pipeline warm w = (Returns r, w1) -> images r = None ->
  run w = (inl (AttributeError "images"%string), w1,
           [EvCall warm; EvGetattr "images"%string]).
Proof. intros Hp Hi. rewrite elapsed_time_eq, Hp, Hi. reflexivity. Qed.

(** The warm-up and all the timed calls return. *)
Lemma run_measures w r i w1 w2 :
  pipeline warm w = (Returns r, w1) -> images r = Some i ->
  world_after pipeline timed (Z.to_nat nb_pass) w1 = Some w2 ->
  run w =
  (division_result Exc (t_sub (time_time w2) (time_time w1)) nb_pass, w2,
   EvCall warm :: EvGetattr "images"%string :: EvTime (time_time w1)
     :: repeat (EvCall timed) (Z.to_nat nb_pass) ++ [EvTime (time_time w2)]).
Proof.
  intros Hp Hi Hw. rewrite elapsed_time_eq, Hp, Hi.
  rewrite (for_loop_returns timed _ 0%Z w1 w2 Hw). reflexivity.
Qed.

(** A timed call raises after [j] that returned. *)
Lemma run_timed_raises w r i w1 j wj e wj' :
  pipeline warm w = (Returns r, w1) -> images r = Some i ->
  (j < Z.to_nat nb_pass)%nat ->
  world_after pipeline timed j w1 = Some wj ->
  pipeline timed wj = (Raises e, wj') ->
  run w =
  (inl (Propagated e), wj',
   EvCall warm :: EvGetattr "images"%string :: EvTime (time_time w1)
     :: repeat (EvCall timed) (S j)).
Proof.
  intros Hp Hi Hlt Hw Hr. rewrite elapsed_time_eq, Hp, Hi.
  rewrite (for_loop_raises timed _ j 0%Z w1 wj e wj' Hlt Hw Hr). reflexivity.
Qed.

Lemma run_shape w : RunShape images pipeline the_prompt nb_pass steps w.
Proof.
  destruct (pipeline warm w) as [[r|e] w1] eqn:Hp.
  - destruct (images r) as [i|] eqn:Hi.
    + destruct (world_after_cases timed (Z.to_nat nb_pass) w1)
        as [[w2 Hw]|(j & wj & e & wj' & Hlt & Hw & Hr)].
      * eapply Measured; eassumption.
      * eapply TimedRaised; eassumption.
    + eapply NoImages; eassumption.
  - eapply WarmupRaised; eassumption.
Qed.

(** *** What every run does *)

Lemma run_calls w :
  exists j, (j <= Z.to_nat nb_pass)%nat /\
    calls_of (events (run w)) = warm :: repeat timed j.
Proof.
  destruct (run_shape w) as [e w1 Hp|r w1 Hp Hi|r i w1 w2 Hp Hi Hw
                            |r i w1 j wj e wj' Hp Hi Hlt Hw Hr].
  - exists O. split; [lia|]. rewrite (run_warmup_raises w e w1 Hp). reflexivity.
  - exists O. split; [lia|]. rewrite (run_no_images w r w1 Hp Hi). reflexivity.
  - exists (Z.to_nat nb_pass). split; [lia|].
    rewrite (run_measures w r i w1 w2 Hp Hi Hw). unfold events. simpl.
    rewrite calls_of_app, calls_of_repeat. simpl. rewrite app_nil_r. reflexivity.
  - exists (S j). split; [lia|].
    rewrite (run_timed_raises w r i w1 j wj e wj' Hp Hi Hlt Hw Hr).
    unfold events. cbn [snd calls_of]. rewrite calls_of_repeat. reflexivity.
Qed.

(** C3.  If the warm-up call raises, the harness stops there: the exception
    leaves [elapsed_time] as it was raised, the warm-up call is the only call
    made (no timed call, no second attempt), and the clock is never read. *)
Theorem warmup_failure_propagates w e w1 :
  pipeline (warmup_call the_prompt) w = (Raises e, w1) ->
  let r := elapsed_time images time_time pipeline the_prompt nb_pass steps w in
  outcome r = inl (Propagated e) /\
  events r = [EvCall (warmup_call the_prompt)] /\
  invocations (events r) = 1%nat /\
  timestamps (events r) = 0%nat /\
  final_world r = w1.
Proof.
  intros Hp r. subst r. fold (run w).
  rewrite (run_warmup_raises w e w1 Hp). repeat split.
Qed.

(** C4.  If the warm-up call and the first [k - 1] timed calls return and the
    [k]-th timed call raises, for [1 <= k <= nb_pass], the exception leaves
    [elapsed_time] at once: exactly [k] timed calls were made, the end
    timestamp is never taken, and the world is the one the failing call left. *)
Theorem timed_failure_propagates w r i w1 (k : nat) wk e wk' :
  (1 <= k)%nat -> (Z.of_nat k <= nb_pass)%Z ->
  pipeline (warmup_call the_prompt) w = (Returns r, w1) ->
  images r = Some i ->
  world_after pipeline (timed_call the_prompt steps) (k - 1) w1 = Some wk ->
  pipeline (timed_call the_prompt steps) wk = (Raises e, wk') ->
  let res := elapsed_time images time_time pipeline the_prompt nb_pass steps w in
  outcome res = inl (Propagated e) /\
  events res =
    [EvCall (warmup_call the_prompt); EvGetattr "images"%string; EvTime (time_time w1)]
      ++ repeat (EvCall (timed_call the_prompt steps)) k /\
  invocations (events res) = (1 + k)%nat /\
  timestamps (events res) = 1%nat /\
  final_world res = wk'.
Proof.
  intros Hk Hle Hp Hi Hw Hr res. subst res. fold (run w).
  assert (Hlt : (k - 1 < Z.to_nat nb_pass)%nat) by lia.
  rewrite (run_timed_raises w r i w1 (k - 1) wk e wk' Hp Hi Hlt Hw Hr).
  replace (S (k - 1)) with k by lia.
  unfold outcome, events, final_world, invocations. cbn [fst snd app].
  repeat split.
  - cbn [calls_of]. rewrite calls_of_repeat. cbn [List.length].
    rewrite repeat_length. reflexivity.
  - change (EvCall warm :: EvGetattr "images"%string :: EvTime (time_time w1)
              :: repeat (EvCall timed) k)
      with ([EvCall warm; EvGetattr "images"%string; EvTime (time_time w1)]
              ++ repeat (EvCall timed) k).
    rewrite timestamps_app, timestamps_repeat_call. reflexivity.
Qed.

(** C5.  In every run the first call is the warm-up and carries the step count
    10, whatever [num_inference_steps] is; every later call is a timed one and
    carries the caller's [num_inference_steps]. *)
Theorem warmup_steps_hard_coded w :
  let r := elapsed_time images time_time pipeline the_prompt nb_pass steps w in
  exists j, (j <= Z.to_nat nb_pass)%nat /\
    map num_inference_steps (calls_of (events r)) = 10%Z :: repeat steps j.
Proof.
  intros r. subst r. fold (run w).
  destruct (run_calls w) as (j & Hj & Hc). exists j. split; [exact Hj|].
  rewrite Hc. simpl. rewrite map_repeat. reflexivity.
Qed.

(** C7.  The world a run leaves is the one the pipeline's own transitions
    produce, applied to the world the run started in for the calls the
    harness made, in order: the harness changes nothing by itself. *)
Theorem harness_only_invokes w :
  let r := elapsed_time images time_time pipeline the_prompt nb_pass steps w in
  final_world r = replay pipeline (events r) w.
Proof.
  intros r. subst r. fold (run w).
  destruct (run_shape w) as [e w1 Hp|r w1 Hp Hi|r i w1 w2 Hp Hi Hw
                            |r i w1 j wj e wj' Hp Hi Hlt Hw Hr].
  - rewrite (run_warmup_raises w e w1 Hp). unfold final_world, events.
    cbn [fst snd replay]. unfold warm. rewrite Hp. reflexivity.
  - rewrite (run_no_images w r w1 Hp Hi). unfold final_world, events.
    cbn [fst snd replay]. unfold warm. rewrite Hp. reflexivity.
  - rewrite (run_measures w r i w1 w2 Hp Hi Hw). unfold final_world, events.
    cbn [fst snd replay]. unfold warm. rewrite Hp. cbn [snd].
    rewrite replay_app. rewrite (replay_calls_returning timed _ w1 w2 Hw).
    reflexivity.
  - rewrite (run_timed_raises w r i w1 j wj e wj' Hp Hi Hlt Hw Hr).
    unfold final_world, events. cbn [fst snd replay]. unfold warm. rewrite Hp.
    cbn [snd].
    replace (S j) with (j + 1)%nat by lia. rewrite repeat_app, replay_app.
    rewrite (replay_calls_returning timed _ w1 wj Hw). cbn [repeat replay].
    unfold timed. rewrite Hr. reflexivity.
Qed.

(** A run that returns went through the warm-up and all the timed calls. *)
Lemma returned_run w v :
  outcome (run w) = inr v ->
  exists r i w1 w2,
    pipeline warm w = (Returns r, w1) /\
    images r = Some i /\
    world_after pipeline timed (Z.to_nat nb_pass) w1 = Some w2 /\
    run w =
      (inr v, w2,
       EvCall warm :: EvGetattr "images"%string :: EvTime (time_time w1)
         :: repeat (EvCall timed) (Z.to_nat nb_pass) ++ [EvTime (time_time w2)]) /\
    t_truediv (t_sub (time_time w2) (time_time w1)) nb_pass = inr v.
Proof.
  destruct (run_shape w) as [e w1 Hp|r w1 Hp Hi|r i w1 w2 Hp Hi Hw
                            |r i w1 j wj e wj' Hp Hi Hlt Hw Hr].
  - rewrite (run_warmup_raises w e w1 Hp). discriminate.
  - rewrite (run_no_images w r w1 Hp Hi). discriminate.
  - rewrite (run_measures w r i w1 w2 Hp Hi Hw).
    unfold outcome. cbn [fst]. intros Hv.
    exists r, i, w1, w2. rewrite Hv. repeat split; try assumption.
    unfold division_result in Hv.
    destruct (t_truediv (t_sub (time_time w2) (time_time w1)) nb_pass)
      as [[|]|v0]; try discriminate. congruence.
  - rewrite (run_timed_raises w r i w1 j wj e wj' Hp Hi Hlt Hw Hr). discriminate.
Qed.

(** C2.  A run that returns [v] went like this: the warm-up call returned,
    [start] was read in the world it left, the [nb_pass] timed calls returned,
    [end] was read in the world the last one left, and [v] is
    [(end - start) / nb_pass].  The reading before the warm-up call plays no
    part. *)
Theorem average_excludes_warmup w v :
  let res := elapsed_time images time_time pipeline the_prompt nb_pass steps w in
  outcome res = inr v ->
  exists r i w1 w2,
    pipeline (warmup_call the_prompt) w = (Returns r, w1) /\
    images r = Some i /\
    world_after pipeline (timed_call the_prompt steps) (Z.to_nat nb_pass) w1 = Some w2 /\
    final_world res = w2 /\
    events res =
      [EvCall (warmup_call the_prompt); EvGetattr "images"%string; EvTime (time_time w1)]
        ++ repeat (EvCall (timed_call the_prompt steps)) (Z.to_nat nb_pass)
        ++ [EvTime (time_time w2)] /\
    t_truediv (t_sub (time_time w2) (time_time w1)) nb_pass = inr v.
Proof.
  intros res Hv. subst res. fold (run w) in *.
  destruct (returned_run w v Hv) as (r & i & w1 & w2 & Hp & Hi & Hw & Hrun & Hd).
  exists r, i, w1, w2. rewrite Hrun. repeat split; assumption.
Qed.

(** C10.  The warm-up call is made without [output_type], every timed call
    with [output_type="np"]; when the warm-up call returns, the next thing
    the harness does is read [.images] of what it returned, the only
    attribute access of the run, and a result without that attribute ends
    the run with AttributeError before any timed call. *)
Theorem warmup_reads_images w :
  let res := elapsed_time images time_time pipeline the_prompt nb_pass steps w in
  (exists j, map output_type (calls_of (events res))
             = None :: repeat (Some "np"%string) j) /\
  (forall r w1,
      pipeline (warmup_call the_prompt) w = (Returns r, w1) ->
      nth_error (events res) 1 = Some (EvGetattr "images"%string) /\
      filter is_getattr (events res) = [EvGetattr "images"%string] /\
      (images r = None ->
       outcome res = inl (AttributeError "images"%string) /\
       invocations (events res) = 1%nat)).
Proof.
  intros res. subst res. fold (run w). split.
  - destruct (run_calls w) as (j & _ & Hc). exists j.
    rewrite Hc. simpl. rewrite map_repeat. reflexivity.
  - intros r0 w0 Hp0.
    assert (Hnocall : forall c k,
               filter is_getattr (repeat (EvCall (T:=T) c) k) = []).
    { intros c k. induction k as [|k IH]; simpl; auto. }
    destruct (run_shape w) as [e w1 Hp|r w1 Hp Hi|r i w1 w2 Hp Hi Hw
                              |r i w1 j wj e wj' Hp Hi Hlt Hw Hr];
      rewrite Hp0 in Hp; try discriminate;
      injection Hp as <- <-.
    + rewrite (run_no_images w r0 w0 Hp0 Hi). repeat split.
    + rewrite (run_measures w r0 i w0 w2 Hp0 Hi Hw).
      unfold events, outcome. cbn [fst snd nth_error filter is_getattr].
      rewrite filter_app, Hnocall. repeat split; congruence.
    + rewrite (run_timed_raises w r0 i w0 j wj e wj' Hp0 Hi Hlt Hw Hr).
      unfold events, outcome. cbn [fst snd nth_error filter is_getattr].
      rewrite Hnocall. repeat split; congruence.
Qed.

End Run.

(** *** The division by [nb_pass] *)

Section Division.

Context {laws : @TimeArithLaws T arith}.

(** C9.  With [nb_pass = 0] the warm-up call is still made and is the only
    call; when it returns an object with [images], both timestamps are read
    in the same world and the division raises ZeroDivisionError.  With
    [nb_pass >= 1] no run ends with that error. *)
Theorem zero_passes_divide_by_zero the_prompt steps w :
  let res := elapsed_time images time_time pipeline the_prompt 0 steps w in
  calls_of (events res) = [warmup_call the_prompt] /\
  (forall r i w1,
      pipeline (warmup_call the_prompt) w = (Returns r, w1) ->
      images r = Some i ->
      res = (inl ZeroDivisionError, w1,
             [EvCall (warmup_call the_prompt); EvGetattr "images"%string;
              EvTime (time_time w1); EvTime (time_time w1)])) /\
  (forall nb_pass w',
      (1 <= nb_pass)%Z ->
      outcome (elapsed_time images time_time pipeline the_prompt nb_pass steps w')
      <> inl ZeroDivisionError).
Proof.
  intros res. subst res. repeat split.
  - destruct (run_calls the_prompt 0 steps w) as (j & Hj & Hc).
    simpl in Hj. assert (j = O) by lia. subst j. exact Hc.
  - intros r i w1 Hp Hi.
    rewrite (run_measures the_prompt 0 steps w r i w1 w1 Hp Hi eq_refl).
    unfold division_result. rewrite truediv_by_zero. reflexivity.
  - intros nb_pass w' Hn.
    destruct (run_shape the_prompt nb_pass steps w')
      as [e w1 Hp|r w1 Hp Hi|r i w1 w2 Hp Hi Hw|r i w1 j wj e wj' Hp Hi Hlt Hw Hr].
    + rewrite (run_warmup_raises _ _ _ w' e w1 Hp). discriminate.
    + rewrite (run_no_images _ _ _ w' r w1 Hp Hi). discriminate.
    + rewrite (run_measures _ _ _ w' r i w1 w2 Hp Hi Hw).
      unfold outcome, division_result. cbn [fst].
      pose proof (truediv_by_nonzero
                    (t_sub (time_time w2) (time_time w1)) nb_pass) as Hnz.
      destruct (t_truediv (t_sub (time_time w2) (time_time w1)) nb_pass)
        as [[|]|v]; try discriminate.
      exfalso. apply Hnz; [lia|reflexivity].
    + rewrite (run_timed_raises _ _ _ w' r i w1 j wj e wj' Hp Hi Hlt Hw Hr).
      discriminate.
Qed.

End Division.

End HarnessFacts.

(** ** The division laws in the two readings *)

#[export] Instance binary64_laws : @TimeArithLaws Binary64.float binary64_arith.
Proof.
  split.
  - intros x. reflexivity.
  - intros x n Hn. cbn [t_truediv binary64_arith]. unfold float_truediv.
    pose proof (Binary64Facts.of_int_nonzero n Hn) as Hy.
    destruct (Binary64.of_int n) as [s|s| |s m e]; simpl in Hy;
      try contradiction; discriminate.
Qed.

#[export] Instance exact_laws : @TimeArithLaws Q exact_arith.
Proof.
  split.
  - intros x. reflexivity.
  - intros x n Hn. cbn [t_truediv exact_arith]. unfold exact_truediv.
    destruct (Z.eqb_spec n 0); [contradiction|discriminate].
Qed.

(** ** The average on exact arithmetic *)

Section Exact.

Variables World Obj Img Exc : Type.
Variable images : Obj -> option Img.
Variable time_time : World -> Q.
Variable pipeline : Pipeline World Obj Exc.

(** [k] returning calls that each take [d] move the clock by [k * d]. *)
Lemma world_after_clock c d k :
  (forall w, time_time (snd (pipeline c w)) == time_time w + d) ->
  forall w w',
    world_after pipeline c k w = Some w' ->
    time_time w' == time_time w + inject_Z (Z.of_nat k) * d.
Proof.
  intros Hd. induction k as [|k IH]; intros w w' Hw.
  - simpl in Hw. injection Hw as <-. simpl. ring.
  - simpl in Hw. pose proof (Hd w) as Hstep.
    destruct (pipeline c w) as [[r|e] w1]; [|discriminate].
    simpl in Hstep. rewrite (IH w1 w' Hw), Hstep.
    rewrite Nat2Z.inj_succ. unfold Z.succ. rewrite inject_Z_plus. ring.
Qed.

Lemma world_after_first c k w w' :
  world_after pipeline c (S k) w = Some w' ->
  exists r, fst (pipeline c w) = Returns r.
Proof.
  simpl. destruct (pipeline c w) as [[r|e] w1]; [|discriminate].
  intros _. exists r. reflexivity.
Qed.

(** The exact average of a clock difference of [n * d] over [n] passes. *)
Lemma exact_average t1 t2 d n v :
  (0 < n)%Z ->
  t2 == t1 + inject_Z n * d ->
  exact_truediv (t2 - t1) n = inr v ->
  v == d.
Proof.
  intros Hn Ht Hv. unfold exact_truediv in Hv.
  destruct (Z.eqb_spec n 0); [lia|]. injection Hv as <-.
  rewrite Ht. field. intros H0.
  unfold Qeq, inject_Z in H0. simpl in H0. lia.
Qed.

(** On exact arithmetic, with a deterministic pipeline, a second call of the
    harness with the same arguments, started in the world the first one
    left, ends as the first one did: with the same exception or with an equal
    average. *)
Lemma exact_runs_agree the_prompt nb_pass steps out dur w :
  deterministic time_time pipeline out dur ->
  let first := elapsed_time images time_time pipeline the_prompt nb_pass steps w in
  let second :=
    elapsed_time images time_time pipeline the_prompt nb_pass steps (final_world first) in
  same_result (outcome first) (outcome second).
Proof.
  intros Hdet first second. subst first second.
  generalize (final_world
                (elapsed_time images time_time pipeline the_prompt nb_pass steps w)).
  intros w'.
  assert (Hout : forall c x o x', pipeline c x = (o, x') -> out c = o).
  { intros c x o x' Hp. rewrite <- (proj1 (Hdet c x)), Hp. reflexivity. }
  assert (Hdur : forall c x, time_time (snd (pipeline c x)) == time_time x + dur c).
  { intros c x. exact (proj2 (Hdet c x)). }
  assert (Hfirst : forall k x x', (0 < k)%nat ->
             world_after pipeline (timed_call the_prompt steps) k x = Some x' ->
             exists r, out (timed_call the_prompt steps) = Returns r).
  { intros k x x' Hk Hw. destruct k as [|k]; [lia|].
    destruct (world_after_first _ _ _ _ Hw) as [r Hr]. exists r.
    rewrite <- (proj1 (Hdet _ x)). exact Hr. }
  destruct (run_shape _ _ _ _ images pipeline the_prompt nb_pass steps w)
    as [e w1 Hp|r w1 Hp Hi|r i w1 w2 Hp Hi Hw|r i w1 j wj e wj' Hp Hi Hlt Hw Hr];
  destruct (run_shape _ _ _ _ images pipeline the_prompt nb_pass steps w')
    as [e' w1' Hp'|r' w1' Hp' Hi'|r' i' w1' w2' Hp' Hi' Hw'
       |r' i' w1' j' wj0 e' wj1 Hp' Hi' Hlt' Hw' Hr'];
  pose proof (Hout _ _ _ _ Hp) as Ho; pose proof (Hout _ _ _ _ Hp') as Ho';
  try (rewrite Ho in Ho'; discriminate);
  try (rewrite Ho in Ho'; injection Ho' as <-; congruence).
  - rewrite (run_warmup_raises _ _ _ _ images time_time pipeline _ nb_pass steps _ _ _ Hp).
    rewrite (run_warmup_raises _ _ _ _ images time_time pipeline _ nb_pass steps _ _ _ Hp').
    simpl. congruence.
  - rewrite (run_no_images _ _ _ _ images time_time pipeline _ nb_pass steps _ _ _ Hp Hi).
    rewrite (run_no_images _ _ _ _ images time_time pipeline _ nb_pass steps _ _ _ Hp' Hi').
    reflexivity.
  - rewrite (run_measures _ _ _ _ images time_time pipeline _ _ _ _ _ _ _ _ Hp Hi Hw).
    rewrite (run_measures _ _ _ _ images time_time pipeline _ _ _ _ _ _ _ _ Hp' Hi' Hw').
    unfold outcome, division_result. cbn [fst t_truediv t_sub exact_arith].
    pose proof (world_after_clock _ _ _ (Hdur (timed_call the_prompt steps)) _ _ Hw) as Hc.
    pose proof (world_after_clock _ _ _ (Hdur (timed_call the_prompt steps)) _ _ Hw') as Hc'.
    unfold exact_truediv. destruct (Z.eqb_spec nb_pass 0) as [Hz|Hz]; [reflexivity|].
    cbn [same_result t_eq exact_arith]. rewrite Hc, Hc'. field.
    intros H0. unfold Qeq, inject_Z in H0. simpl in H0. lia.
  - assert (Hk : (0 < Z.to_nat nb_pass)%nat) by lia.
    destruct (Hfirst _ _ _ Hk Hw) as [r0 Hr0].
    pose proof (Hout _ _ _ _ Hr') as Hraise. congruence.
  - assert (Hk : (0 < Z.to_nat nb_pass)%nat) by lia.
    destruct (Hfirst _ _ _ Hk Hw') as [r0 Hr0].
    pose proof (Hout _ _ _ _ Hr) as Hraise. congruence.
  - rewrite (run_timed_raises _ _ _ _ images time_time pipeline _ _ _ _ _ _ _ _ _ _ _ Hp Hi Hlt Hw Hr).
    rewrite (run_timed_raises _ _ _ _ images time_time pipeline _ _ _ _ _ _ _ _ _ _ _ Hp' Hi' Hlt' Hw' Hr').
    pose proof (Hout _ _ _ _ Hr) as H1. pose proof (Hout _ _ _ _ Hr') as H2.
    simpl. congruence.
Qed.

End Exact.

(** ** The average on binary64 *)

Section Float.

Variables World Obj Img Exc : Type.
Variable images : Obj -> option Img.
Variable time_time : World -> Binary64.float.
Variable pipeline : Pipeline World Obj Exc.

(** C6 on binary64.  A run with [nb_pass > 0] that returns [v] made the
    warm-up call first and read [start] only in the world that call left;
    and [v >= 0.0] whenever the two readings are finite and [end] is not
    below [start]. *)
Theorem average_nonnegative the_prompt nb_pass steps w v :
  let res := elapsed_time images time_time pipeline the_prompt nb_pass steps w in
  (0 < nb_pass)%Z ->
  outcome res = inr v ->
  exists r w1 w2,
    pipeline (warmup_call the_prompt) w = (Returns r, w1) /\
    events res =
      [EvCall (warmup_call the_prompt); EvGetattr "images"%string; EvTime (time_time w1)]
        ++ repeat (EvCall (timed_call the_prompt steps)) (Z.to_nat nb_pass)
        ++ [EvTime (time_time w2)] /\
    (Binary64.is_finite (time_time w1) = true ->
     Binary64.is_finite (time_time w2) = true ->
     Binary64.leb (time_time w1) (time_time w2) = true ->
     Binary64.leb Binary64.zero v = true).
Proof.
  intros res Hn Hv. subst res.
  destruct (returned_run _ _ _ _ images time_time pipeline the_prompt nb_pass steps
              w v Hv) as (r & i & w1 & w2 & Hp & Hi & Hw & Hrun & Hd).
  exists r, w1, w2. rewrite Hrun. repeat split; [exact Hp|].
  intros F1 F2 Hle.
  apply (Binary64Facts.float_truediv_nonneg
           (Binary64.sub (time_time w2) (time_time w1)) nb_pass v).
  - apply Binary64Facts.sub_nonneg; assumption.
  - exact Hn.
  - exact Hd.
Qed.

(** A benchmark whose readings advance by [nb_pass * d] up to [delta]
    returns a number within [average_tolerance] of [d]. *)
Lemma float_average_within the_prompt nb_pass steps w d delta :
  always_succeeds images pipeline ->
  (0 < nb_pass)%Z -> inject_Z nb_pass <= Binary64.pow2 1000 ->
  0 <= d ->
  readings_advance time_time pipeline the_prompt nb_pass steps w d delta ->
  exists v,
    outcome (elapsed_time images time_time pipeline the_prompt nb_pass steps w)
      = inr v /\
    Binary64.is_number v = true /\
    Qabs (Binary64.value v - d) <= average_tolerance d delta nb_pass.
Proof.
  intros Hok Hn Bn Hd Hadv.
  destruct (always_succeeds_returns _ _ _ _ images pipeline
              (warmup_call the_prompt) w Hok) as (r & i & Hp & Hi).
  set (w1 := snd (pipeline (warmup_call the_prompt) w)) in *.
  destruct (always_succeeds_world_after _ _ _ _ images pipeline
              (timed_call the_prompt steps) (Z.to_nat nb_pass) Hok w1) as [w2 Hw].
  destruct (Hadv r w1 w2 Hp Hw) as (N1 & N2 & B1 & B2 & HD).
  rewrite (run_measures _ _ _ _ images time_time pipeline the_prompt nb_pass steps
             w r i w1 w2 Hp Hi Hw).
  destruct (Binary64Facts.truediv_sub_returns (time_time w1) (time_time w2) nb_pass
              N1 N2 B1 B2 Hn Bn) as (v & Hv & Hnum).
  pose proof (Binary64Facts.truediv_sub_error (time_time w1) (time_time w2) nb_pass v
                N1 N2 Hn Hv Hnum) as Herr.
  exists v. unfold outcome, division_result. cbn [fst t_truediv t_sub binary64_arith].
  rewrite Hv. split; [reflexivity|]. split; [exact Hnum|].
  unfold average_tolerance.
  set (D := Binary64.value (time_time w2) - Binary64.value (time_time w1)) in *.
  set (N := inject_Z nb_pass) in *.
  assert (HN : 1 <= N).
  { unfold N. change 1 with (inject_Z 1). rewrite <- Zle_Qle. lia. }
  assert (HNne : ~ N == 0) by lra.
  assert (Hinv : 0 < / N) by (apply Qinv_lt_0_compat; lra).
  assert (Hq : D / N - d == (D - N * d) / N) by (field; exact HNne).
  assert (Hq' : Qabs (D / N - d) <= delta / N).
  { rewrite Hq. unfold Qdiv. rewrite Qabs_Qmult, (Qabs_pos (/ N)) by lra.
    apply Qmult_le_compat_r; [exact HD|lra]. }
  assert (Hq0 : Qabs (D / N) <= d + delta / N).
  { setoid_replace (D / N) with (d + (D / N - d)) by ring.
    eapply Qle_trans; [apply Qabs_triangle|]. rewrite (Qabs_pos d) by exact Hd. lra. }
  assert (Htri : Qabs (Binary64.value v - d) <= Qabs (Binary64.value v - D / N) + Qabs (D / N - d)).
  { setoid_replace (Binary64.value v - d) with ((Binary64.value v - D / N) + (D / N - d)) by ring.
    apply Qabs_triangle. }
  pose proof (Binary64Facts.pow2_pos (-47)) as P47.
  assert (Qabs (D / N) * Binary64.pow2 (-47) <= (d + delta / N) * Binary64.pow2 (-47)).
  { apply Qmult_le_compat_r; [exact Hq0|lra]. }
  lra.
Qed.

End Float.

(** ** The calls of a successful benchmark and its average *)

(** C1.  With a pipeline that always returns objects with [images] and
    [nb_pass > 0], whatever the arithmetic of the clock readings, the harness
    makes the warm-up call, reads [.images], reads the clock, makes the
    [nb_pass] timed calls with the given prompt and step count, and reads the
    clock again: [1 + nb_pass] calls in all.  When moreover every call moves
    the clock by [d] and the arithmetic is exact, the value returned is
    [d].  On binary64, when the two readings are [nb_pass * d] apart up to
    [delta], the value returned is a number within [average_tolerance] of
    [d]: [delta / nb_pass] and a relative error of [2^-47]. *)
Theorem invocations_and_average :
  (forall (T : Type) (arith : TimeArith T) (World Obj Img Exc : Type)
          (images : Obj -> option Img) (time_time : World -> T)
          (pipeline : Pipeline World Obj Exc)
          (the_prompt : string) (nb_pass steps : Z) (w : World),
      always_succeeds images pipeline ->
      (0 < nb_pass)%Z ->
      let res := elapsed_time images time_time pipeline the_prompt nb_pass steps w in
      (exists s e,
          events res =
            [EvCall (warmup_call the_prompt); EvGetattr "images"%string; EvTime s]
              ++ repeat (EvCall (timed_call the_prompt steps)) (Z.to_nat nb_pass)
              ++ [EvTime e]) /\
      Z.of_nat (invocations (events res)) = (1 + nb_pass)%Z) /\
  (forall (World Obj Img Exc : Type)
          (images : Obj -> option Img) (time_time : World -> Q)
          (pipeline : Pipeline World Obj Exc)
          (the_prompt : string) (nb_pass steps : Z) (d : Q) (w : World),
      always_succeeds images pipeline ->
      fixed_duration time_time pipeline d ->
      (0 < nb_pass)%Z ->
      exists v,
        outcome (elapsed_time images time_time pipeline the_prompt nb_pass steps w)
          = inr v /\
        v == d) /\
  (forall (World Obj Img Exc : Type)
          (images : Obj -> option Img) (time_time : World -> Binary64.float)
          (pipeline : Pipeline World Obj Exc)
          (the_prompt : string) (nb_pass steps : Z) (d delta : Q) (w : World),
      always_succeeds images pipeline ->
      (0 < nb_pass)%Z ->
      inject_Z nb_pass <= Binary64.pow2 1000 ->
      0 <= d ->
      readings_advance time_time pipeline the_prompt nb_pass steps w d delta ->
      exists v,
        outcome (elapsed_time images time_time pipeline the_prompt nb_pass steps w)
          = inr v /\
        Binary64.is_number v = true /\
        Qabs (Binary64.value v - d) <= average_tolerance d delta nb_pass).
Proof.
  split; [|split].
  - intros T arith World Obj Img Exc images time_time pipeline the_prompt
           nb_pass steps w Hok Hn res. subst res.
    destruct (always_succeeds_returns _ _ _ _ images pipeline
                (warmup_call the_prompt) w Hok) as (r & i & Hp & Hi).
    set (w1 := snd (pipeline (warmup_call the_prompt) w)) in *.
    destruct (always_succeeds_world_after _ _ _ _ images pipeline
                (timed_call the_prompt steps) (Z.to_nat nb_pass) Hok w1) as [w2 Hw].
    rewrite (run_measures _ _ _ _ images time_time pipeline the_prompt nb_pass steps
               w r i w1 w2 Hp Hi Hw).
    unfold events, invocations. cbn [fst snd]. split.
    + exists (time_time w1), (time_time w2). reflexivity.
    + cbn [calls_of]. rewrite calls_of_app, calls_of_repeat. cbn [calls_of].
      rewrite app_nil_r. cbn [List.length]. rewrite repeat_length. lia.
  - intros World Obj Img Exc images time_time pipeline the_prompt
           nb_pass steps d w Hok Hd Hn.
    destruct (always_succeeds_returns _ _ _ _ images pipeline
                (warmup_call the_prompt) w Hok) as (r & i & Hp & Hi).
    set (w1 := snd (pipeline (warmup_call the_prompt) w)) in *.
    destruct (always_succeeds_world_after _ _ _ _ images pipeline
                (timed_call the_prompt steps) (Z.to_nat nb_pass) Hok w1) as [w2 Hw].
    rewrite (run_measures _ _ _ _ images time_time pipeline the_prompt nb_pass steps
               w r i w1 w2 Hp Hi Hw).
    pose proof (world_after_clock _ _ _ time_time pipeline
                  (timed_call the_prompt steps) d
                  (Z.to_nat nb_pass) (Hd (timed_call the_prompt steps)) w1 w2 Hw)
      as Hclock.
    rewrite Z2Nat.id in Hclock by lia.
    unfold outcome, division_result. cbn [fst t_truediv t_sub exact_arith].
    destruct (exact_truediv (time_time w2 - time_time w1) nb_pass) as [err|v] eqn:Hv.
    + unfold exact_truediv in Hv. destruct (Z.eqb_spec nb_pass 0); [lia|discriminate].
    + exists v. split; [reflexivity|].
      exact (exact_average _ _ d nb_pass v Hn Hclock Hv).
- intros World Obj Img Exc images time_time pipeline the_prompt
           nb_pass steps d delta w Hok Hn Bn Hd Hadv.
    exact (float_average_within _ _ _ _ images time_time pipeline the_prompt
             nb_pass steps w d delta Hok Hn Bn Hd Hadv).
Qed.

(** ** Two successive benchmarks *)

(** C8.  With a deterministic pipeline, a second call of the harness with
    the same arguments, started in the world the first one left, ends as the
    first one did when the arithmetic is exact: with the same exception or
    with an equal average.  The harness carries nothing from one call to the
    next: the world is all the second call sees of the first.  On binary64,
    when every call returns and in both runs the two readings are
    [nb_pass * d] apart up to [delta], both runs return numbers, and these
    differ by at most twice [average_tolerance]. *)
Theorem average_repeatable :
  (forall (World Obj Img Exc : Type)
          (images : Obj -> option Img) (time_time : World -> Q)
          (pipeline : Pipeline World Obj Exc)
          (the_prompt : string) (nb_pass steps : Z)
          (out : Call -> Outcome Obj Exc) (dur : Call -> Q) (w : World),
      deterministic time_time pipeline out dur ->
      let first := elapsed_time images time_time pipeline the_prompt nb_pass steps w in
      let second :=
        elapsed_time images time_time pipeline the_prompt nb_pass steps
          (final_world first) in
      same_result (outcome first) (outcome second)) /\
  (forall (World Obj Img Exc : Type)
          (images : Obj -> option Img) (time_time : World -> Binary64.float)
          (pipeline : Pipeline World Obj Exc)
          (the_prompt : string) (nb_pass steps : Z) (d delta : Q) (w : World),
      always_succeeds images pipeline ->
      (0 < nb_pass)%Z ->
      inject_Z nb_pass <= Binary64.pow2 1000 ->
      0 <= d ->
      let first := elapsed_time images time_time pipeline the_prompt nb_pass steps w in
      let second :=
        elapsed_time images time_time pipeline the_prompt nb_pass steps
          (final_world first) in
      readings_advance time_time pipeline the_prompt nb_pass steps w d delta ->
      readings_advance time_time pipeline the_prompt nb_pass steps
        (final_world first) d delta ->
      exists v1 v2,
        outcome first = inr v1 /\ outcome second = inr v2 /\
        Binary64.is_number v1 = true /\ Binary64.is_number v2 = true /\
        Qabs (Binary64.value v1 - Binary64.value v2)
        <= 2 * average_tolerance d delta nb_pass).
Proof.
  split.
  - intros World Obj Img Exc images time_time pipeline the_prompt nb_pass steps
           out dur w Hdet.
    exact (exact_runs_agree _ _ _ _ images time_time pipeline the_prompt nb_pass steps
             out dur w Hdet).
  - intros World Obj Img Exc images time_time pipeline the_prompt nb_pass steps
           d delta w Hok Hn Bn Hd first second H1 H2.
    destruct (float_average_within _ _ _ _ images time_time pipeline the_prompt
                nb_pass steps w d delta Hok Hn Bn Hd H1) as (v1 & Hv1 & N1 & E1).
    destruct (float_average_within _ _ _ _ images time_time pipeline the_prompt
                nb_pass steps (final_world first) d delta Hok Hn Bn Hd H2)
      as (v2 & Hv2 & N2 & E2).
    exists v1, v2. repeat split; try assumption.
    setoid_replace (Binary64.value v1 - Binary64.value v2)
      with ((Binary64.value v1 - d) + - (Binary64.value v2 - d)) by ring.
    eapply Qle_trans; [apply Qabs_triangle|]. rewrite Qabs_opp. lra.
Qed.

(** ** More of what every run does *)

Section Failures.

Context {T : Type} {arith : TimeArith T}.
Variables World Obj Img Exc : Type.
Variable images : Obj -> option Img.
Variable time_time : World -> T.
Variable pipeline : Pipeline World Obj Exc.

(** The division raises one of its two exceptions or gives a value: never an
    exception of the pipeline or of the attribute access. *)
Lemma division_result_cases (x : T) (n : Z) :
  (exists v, division_result Exc x n = inr v) \/
  division_result Exc x n = inl ZeroDivisionError \/
  division_result Exc x n = inl OverflowError.
Proof.
  unfold division_result. destruct (t_truediv x n) as [[|]|v]; eauto.
Qed.

Lemma repeat_prefix_rest {A : Type} (a : A) (j n : nat) :
  (j <= n)%nat -> repeat a j ++ repeat a (n - j) = repeat a n.
Proof.
  intros Hj. rewrite <- repeat_app. f_equal. lia.
Qed.

(** What a run did is an initial part of the full trace, and all of it
    exactly when the run got to the division. *)
Lemma run_trace_prefix the_prompt nb_pass steps w :
  let res := elapsed_time images time_time pipeline the_prompt nb_pass steps w in
  exists s e rest,
    events res ++ rest = full_trace the_prompt nb_pass steps s e /\
    (rest = [] <-> outcome res = division_result Exc (t_sub e s) nb_pass).
Proof.
  intros res. subst res.
  destruct (run_shape _ _ _ _ images pipeline the_prompt nb_pass steps w)
    as [e w1 Hp|r w1 Hp Hi|r i w1 w2 Hp Hi Hw|r i w1 j wj e wj' Hp Hi Hlt Hw Hr].
  - rewrite (run_warmup_raises _ _ _ _ images time_time pipeline _ nb_pass steps _ _ _ Hp).
    exists (time_time w), (time_time w), (tl (full_trace the_prompt nb_pass steps
                                               (time_time w) (time_time w))).
    split; [reflexivity|]. unfold outcome. cbn [fst]. split; [discriminate|].
    destruct (division_result_cases (t_sub (time_time w) (time_time w)) nb_pass)
      as [[v Hv]|[Hv|Hv]]; rewrite Hv; discriminate.
  - rewrite (run_no_images _ _ _ _ images time_time pipeline _ nb_pass steps _ _ _ Hp Hi).
    exists (time_time w), (time_time w),
      (tl (tl (full_trace the_prompt nb_pass steps (time_time w) (time_time w)))).
    split; [reflexivity|]. unfold outcome. cbn [fst]. split; [discriminate|].
    destruct (division_result_cases (t_sub (time_time w) (time_time w)) nb_pass)
      as [[v Hv]|[Hv|Hv]]; rewrite Hv; discriminate.
  - rewrite (run_measures _ _ _ _ images time_time pipeline the_prompt nb_pass steps
               w r i w1 w2 Hp Hi Hw).
    exists (time_time w1), (time_time w2), []. unfold events, outcome. cbn [fst snd].
    rewrite app_nil_r. split; [reflexivity|]. split; reflexivity.
  - rewrite (run_timed_raises _ _ _ _ images time_time pipeline _ _ _ _ _ _ _ _ _ _ _
               Hp Hi Hlt Hw Hr).
    exists (time_time w1), (time_time w1),
      (repeat (EvCall (timed_call the_prompt steps)) (Z.to_nat nb_pass - S j)
         ++ [EvTime (time_time w1)]).
    unfold events, outcome, full_trace. cbn [fst snd app]. split.
    + do 3 f_equal. rewrite app_assoc. f_equal. apply repeat_prefix_rest. lia.
    + split.
      * intros Hnil. apply app_eq_nil in Hnil. destruct Hnil as [_ Hnil]. discriminate.
      * destruct (division_result_cases (t_sub (time_time w1) (time_time w1)) nb_pass)
          as [[v Hv]|[Hv|Hv]]; rewrite Hv; discriminate.
Qed.

Lemma invocations_full_trace the_prompt nb_pass steps (s e : T) :
  invocations (full_trace the_prompt nb_pass steps s e) = (1 + Z.to_nat nb_pass)%nat.
Proof.
  unfold invocations, full_trace. cbn [app calls_of].
  rewrite calls_of_app, calls_of_repeat. cbn [calls_of List.length].
  rewrite app_nil_r, repeat_length. reflexivity.
Qed.

Lemma timestamps_full_trace the_prompt nb_pass steps (s e : T) :
  timestamps (full_trace the_prompt nb_pass steps s e) = 2%nat.
Proof.
  unfold full_trace. rewrite !timestamps_app, timestamps_repeat_call. reflexivity.
Qed.

(** X1.  Whatever the pipeline does, what a run did is an initial part of
    one fixed sequence: the warm-up call, the read of [.images], the first
    clock reading, the [nb_pass] timed calls, the second clock reading.  It
    is the whole sequence exactly when the run got to the division.  So no
    run makes more than [1 + nb_pass] calls or reads the clock more than
    twice. *)
Theorem trace_is_prefix the_prompt nb_pass steps w :
  let res := elapsed_time images time_time pipeline the_prompt nb_pass steps w in
  exists s e rest,
    events res ++ rest = full_trace the_prompt nb_pass steps s e /\
    (rest = [] <-> outcome res = division_result Exc (t_sub e s) nb_pass) /\
    (invocations (events res) <= 1 + Z.to_nat nb_pass)%nat /\
    (timestamps (events res) <= 2)%nat.
Proof.
  intros res.
  destruct (run_trace_prefix the_prompt nb_pass steps w) as (s & e & rest & Hpre & Hiff).
  fold res in Hpre, Hiff. exists s, e, rest.
  split; [exact Hpre|]. split; [exact Hiff|].
  pose proof (invocations_full_trace the_prompt nb_pass steps s e) as Hi.
  pose proof (timestamps_full_trace the_prompt nb_pass steps s e) as Ht.
  rewrite <- Hpre in Hi, Ht. rewrite timestamps_app in Ht.
  unfold invocations in *. rewrite calls_of_app, length_app in Hi.
  split; lia.
Qed.

(** X2.  An exception of the pipeline that leaves [elapsed_time] was raised
    by the last call the harness made, in the world the earlier calls left;
    that call is the warm-up or a timed call, and the run ends in the world
    the failing call left. *)
Theorem propagated_exception_was_raised the_prompt nb_pass steps w e :
  let res := elapsed_time images time_time pipeline the_prompt nb_pass steps w in
  outcome res = inl (Propagated e) ->
  exists tr c w',
    events res = tr ++ [EvCall c] /\
    (c = warmup_call the_prompt \/ c = timed_call the_prompt steps) /\
    pipeline c (replay pipeline tr w) = (Raises e, w') /\
    final_world res = w'.
Proof.
  intros res. subst res.
  destruct (run_shape _ _ _ _ images pipeline the_prompt nb_pass steps w)
    as [e0 w1 Hp|r w1 Hp Hi|r i w1 w2 Hp Hi Hw|r i w1 j wj e0 wj' Hp Hi Hlt Hw Hr].
  - rewrite (run_warmup_raises _ _ _ _ images time_time pipeline _ nb_pass steps _ _ _ Hp).
    unfold outcome, events, final_world. cbn [fst snd]. intros He.
    injection He as <-. exists [], (warmup_call the_prompt), w1.
    repeat split; [left; reflexivity|exact Hp].
  - rewrite (run_no_images _ _ _ _ images time_time pipeline _ nb_pass steps _ _ _ Hp Hi).
    discriminate.
  - rewrite (run_measures _ _ _ _ images time_time pipeline the_prompt nb_pass steps
               w r i w1 w2 Hp Hi Hw).
    unfold outcome. cbn [fst].
    destruct (division_result_cases (t_sub (time_time w2) (time_time w1)) nb_pass)
      as [[v Hv]|[Hv|Hv]]; rewrite Hv; discriminate.
  - rewrite (run_timed_raises _ _ _ _ images time_time pipeline _ _ _ _ _ _ _ _ _ _ _
               Hp Hi Hlt Hw Hr).
    unfold outcome, events, final_world. cbn [fst snd]. intros He.
    injection He as <-.
    exists ([EvCall (warmup_call the_prompt); EvGetattr "images"%string;
             EvTime (time_time w1)]
              ++ repeat (EvCall (timed_call the_prompt steps)) j),
      (timed_call the_prompt steps), wj'.
    split.
    + replace (S j) with (j + 1)%nat by lia. rewrite repeat_app, <- app_assoc.
      reflexivity.
    + split; [right; reflexivity|]. split; [|reflexivity].
      rewrite replay_app. cbn [replay]. rewrite Hp. cbn [snd].
      rewrite (replay_calls_returning _ _ _ pipeline _ _ _ _ Hw). exact Hr.
Qed.


Section NegativePasses.

Context {laws : @TimeArithLaws T arith}.

(** X4.  A negative [nb_pass] is not rejected.  The loop body never runs:
    the warm-up call is the only call, and when it returns an object with
    [images] the two clock readings are taken one after the other and their
    difference is divided by the negative count, which is not a division by
    zero. *)
Theorem negative_passes_skip_the_loop the_prompt nb_pass steps w :
  (nb_pass < 0)%Z ->
  let res := elapsed_time images time_time pipeline the_prompt nb_pass steps w in
  calls_of (events res) = [warmup_call the_prompt] /\
  outcome res <> inl ZeroDivisionError /\
  (forall r i w1,
      pipeline (warmup_call the_prompt) w = (Returns r, w1) ->
      images r = Some i ->
      exists s e,
        res = (division_result Exc (t_sub e s) nb_pass, w1,
               [EvCall (warmup_call the_prompt); EvGetattr "images"%string;
                EvTime s; EvTime e])).
Proof.
  intros Hn res. subst res.
  assert (Hz : Z.to_nat nb_pass = O) by lia.
  assert (Hdiv : forall x, division_result Exc x nb_pass <> inl ZeroDivisionError).
  { intros x. unfold division_result.
    pose proof (truediv_by_nonzero x nb_pass) as Hnz.
    destruct (t_truediv x nb_pass) as [[|]|v]; try discriminate.
    exfalso. apply Hnz; [lia|reflexivity]. }
  split; [|split].
  - destruct (run_calls _ _ _ _ images time_time pipeline the_prompt nb_pass steps w)
      as (j & Hj & Hc).
    assert (j = O) by lia. subst j. exact Hc.
  - destruct (run_shape _ _ _ _ images pipeline the_prompt nb_pass steps w)
      as [e0 w1 Hp|r w1 Hp Hi|r i w1 w2 Hp Hi Hw|r i w1 j wj e0 wj' Hp Hi Hlt Hw Hr].
    + rewrite (run_warmup_raises _ _ _ _ images time_time pipeline _ nb_pass steps _ _ _ Hp).
      discriminate.
    + rewrite (run_no_images _ _ _ _ images time_time pipeline _ nb_pass steps _ _ _ Hp Hi).
      discriminate.
    + rewrite (run_measures _ _ _ _ images time_time pipeline the_prompt nb_pass steps
                 w r i w1 w2 Hp Hi Hw).
      apply Hdiv.
    + lia.
  - intros r i w1 Hp Hi.
    assert (Hw : world_after pipeline (timed_call the_prompt steps) (Z.to_nat nb_pass) w1
                 = Some w1) by (rewrite Hz; reflexivity).
    exists (time_time w1), (time_time w1).
    rewrite (run_measures _ _ _ _ images time_time pipeline the_prompt nb_pass steps
               w r i w1 w1 Hp Hi Hw).
    rewrite Hz. reflexivity.
Qed.

End NegativePasses.

End Failures.

(** ** What the harness does not look at *)

Section Discarded.

Context {T : Type} {arith : TimeArith T}.
Variables World Obj1 Obj2 Img1 Img2 Exc : Type.
Variable images1 : Obj1 -> option Img1.
Variable images2 : Obj2 -> option Img2.
Variable time_time : World -> T.
Variable p1 : Pipeline World Obj1 Exc.
Variable p2 : Pipeline World Obj2 Exc.

Hypothesis Hsame : same_effects images1 images2 p1 p2.

Lemma same_effects_returns c w r1 w1 :
  p1 c w = (Returns r1, w1) ->
  exists r2, p2 c w = (Returns r2, w1) /\
    (output_type c = None -> (images1 r1 = None <-> images2 r2 = None)).
Proof.
  intros Hp. destruct (Hsame c w) as [Hw Ho]. rewrite Hp in Hw, Ho.
  destruct (p2 c w) as [[r2|e2] w2]; cbn [fst snd] in *; [|contradiction].
  exists r2. subst w2. split; [reflexivity|exact Ho].
Qed.

Lemma same_effects_raises c w e w1 :
  p1 c w = (Raises e, w1) -> p2 c w = (Raises e, w1).
Proof.
  intros Hp. destruct (Hsame c w) as [Hw Ho]. rewrite Hp in Hw, Ho.
  destruct (p2 c w) as [[r2|e2] w2]; cbn [fst snd] in *; [contradiction|].
  subst. reflexivity.
Qed.

Lemma same_effects_world_after c k :
  forall w w', world_after p1 c k w = Some w' -> world_after p2 c k w = Some w'.
Proof.
  induction k as [|k IH]; intros w w' Hw; [exact Hw|].
  simpl in *. destruct (p1 c w) as [[r1|e1] w1] eqn:Hp; [|discriminate].
  destruct (same_effects_returns c w r1 w1 Hp) as (r2 & Hp2 & _).
  rewrite Hp2. apply IH. exact Hw.
Qed.

(** X5.  The harness looks at nothing of what the pipeline returns except
    whether the warm-up result has [images]: two pipelines that change the
    world alike and raise alike, and whose objects differ in any other way,
    give the same run, with the same outcome, final world and events. *)
Theorem returned_objects_are_discarded the_prompt nb_pass steps w :
  elapsed_time images1 time_time p1 the_prompt nb_pass steps w =
  elapsed_time images2 time_time p2 the_prompt nb_pass steps w.
Proof.
  destruct (run_shape _ _ _ _ images1 p1 the_prompt nb_pass steps w)
    as [e w1 Hp|r w1 Hp Hi|r i w1 w2 Hp Hi Hw|r i w1 j wj e wj' Hp Hi Hlt Hw Hr].
  - rewrite (run_warmup_raises _ _ _ _ images1 time_time p1 _ nb_pass steps _ _ _ Hp).
    rewrite (run_warmup_raises _ _ _ _ images2 time_time p2 _ nb_pass steps _ _ _
               (same_effects_raises _ _ _ _ Hp)).
    reflexivity.
  - destruct (same_effects_returns _ _ _ _ Hp) as (r2 & Hp2 & Hi2).
    rewrite (run_no_images _ _ _ _ images1 time_time p1 _ nb_pass steps _ _ _ Hp Hi).
    rewrite (run_no_images _ _ _ _ images2 time_time p2 _ nb_pass steps _ _ _ Hp2
               (proj1 (Hi2 eq_refl) Hi)).
    reflexivity.
  - destruct (same_effects_returns _ _ _ _ Hp) as (r2 & Hp2 & Hi2).
    destruct (images2 r2) as [i2|] eqn:Hi2'.
    + rewrite (run_measures _ _ _ _ images1 time_time p1 the_prompt nb_pass steps
                 w r i w1 w2 Hp Hi Hw).
      rewrite (run_measures _ _ _ _ images2 time_time p2 the_prompt nb_pass steps
                 w r2 i2 w1 w2 Hp2 Hi2' (same_effects_world_after _ _ _ _ Hw)).
      reflexivity.
    + rewrite (proj2 (Hi2 eq_refl) eq_refl) in Hi. discriminate.
  - destruct (same_effects_returns _ _ _ _ Hp) as (r2 & Hp2 & Hi2).
    destruct (images2 r2) as [i2|] eqn:Hi2'.
    + rewrite (run_timed_raises _ _ _ _ images1 time_time p1 _ _ _ _ _ _ _ _ _ _ _
                 Hp Hi Hlt Hw Hr).
      rewrite (run_timed_raises _ _ _ _ images2 time_time p2 _ _ _ _ _ _ _ _ _ _ _
                 Hp2 Hi2' Hlt (same_effects_world_after _ _ _ _ Hw)
                 (same_effects_raises _ _ _ _ Hr)).
      reflexivity.
    + rewrite (proj2 (Hi2 eq_refl) eq_refl) in Hi. discriminate.
Qed.

End Discarded.

(** ** The average as a mean of durations *)

Section Mean.

Variables World Obj Img Exc : Type.
Variable images : Obj -> option Img.
Variable time_time : World -> Q.
Variable pipeline : Pipeline World Obj Exc.






End Mean.

(** ** The binary64 division, whatever the readings *)

Section FloatDivision.

Import Binary64.

(** The float of an int that is not zero and below [2^1022] in magnitude is
    a float that is not zero, of the sign of the int. *)
Lemma of_int_finite n :
  n <> 0%Z -> (Z.abs n < 2 ^ 1022)%Z ->
  exists m e, of_int n = S754_finite (n <? 0)%Z m e.
Proof.
  intros Hn Hb.
  pose proof (Binary64Facts.of_int_nonzero n Hn) as Hs.
  assert (Hq : Qabs (inject_Z n) < pow2 1022).
  { rewrite <- (Binary64Facts.pow2_Z 1022) by lia.
    change (Qabs (inject_Z n)) with (inject_Z (Z.abs n)).
    rewrite <- Zlt_Qlt. exact Hb. }
  pose proof (Binary64Facts.of_int_number n Hq) as Hnum.
  destruct (of_int n) as [s|s| |s m e]; cbn [nonzero_sign_is is_number] in *;
    try contradiction; try discriminate.
  subst s. exists m, e. reflexivity.
Qed.

Lemma float_truediv_finite x n :
  n <> 0%Z -> (Z.abs n < 2 ^ 1022)%Z ->
  float_truediv x n = inr (div x (of_int n)).
Proof.
  intros Hn Hb. destruct (of_int_finite n Hn Hb) as (m & e & Hy).
  unfold float_truediv. rewrite Hy. reflexivity.
Qed.

(** The sign of a rounded sum is that of the exact sum. *)
Lemma normalize_sign m e :
  sign_is (m <? 0)%Z (binary_normalize prec emax m e false).
Proof.
  unfold binary_normalize, binary_round.
  destruct m as [|p|p]; [reflexivity| |].
  - destruct (shl_align p e (fexp prec emax (Zpos (digits2_pos p) + e))) as [mz ez].
    apply Binary64Facts.binary_round_aux_sign. lia.
  - destruct (shl_align p e (fexp prec emax (Zpos (digits2_pos p) + e))) as [mz ez].
    apply Binary64Facts.binary_round_aux_sign. lia.
Qed.

Lemma sign_is_not_nan s x : sign_is s x -> is_nan x = false.
Proof. destruct x; simpl; [reflexivity|reflexivity|contradiction|reflexivity]. Qed.

(** The difference of two numbers is never a NaN. *)
Lemma sub_not_nan x y :
  is_number x = true -> is_number y = true -> is_nan (sub x y) = false.
Proof.
  intros Hx Hy. unfold sub.
  destruct x as [sx|sx| |sx mx ex]; try discriminate;
    destruct y as [sy|sy| |sy my ey]; try discriminate.
  - destruct sx, sy; reflexivity.
  - reflexivity.
  - reflexivity.
  - cbn [SFsub]. eapply sign_is_not_nan. apply normalize_sign.
Qed.

(** Dividing by a float that is neither zero, infinite nor NaN makes no
    NaN. *)
Lemma div_not_nan x sy my ey :
  is_nan x = false -> is_nan (div x (S754_finite sy my ey)) = false.
Proof.
  intros Hx. unfold div.
  destruct x as [sx|sx| |sx mx ex]; try discriminate; try reflexivity.
  cbn [SFdiv].
  pose proof (Binary64Facts.div_core_spec mx ex my ey) as Hcore.
  destruct (SFdiv_core_binary prec emax (Zpos mx) ex (Zpos my) ey) as [[q e'] l].
  destruct Hcore as (Hq & _).
  eapply sign_is_not_nan. apply Binary64Facts.binary_round_aux_sign. exact Hq.
Qed.

Lemma float_truediv_not_nan x n v :
  is_nan x = false -> float_truediv x n = inr v -> is_nan v = false.
Proof.
  intros Hx Hv. unfold float_truediv in Hv.
  destruct (of_int n) as [sy|sy| |sy my ey] eqn:Hy; try discriminate.
  - injection Hv as <-.
    pose proof (normalize_sign n 0) as Hs. fold (of_int n) in Hs. rewrite Hy in Hs.
    contradiction.
  - injection Hv as <-. apply div_not_nan. exact Hx.
Qed.

End FloatDivision.

Section FloatRuns.

Variables World Obj Img Exc : Type.
Variable images : Obj -> option Img.
Variable time_time : World -> Binary64.float.
Variable pipeline : Pipeline World Obj Exc.

(** The division of a run whose calls all returned. *)
Lemma float_run_divides the_prompt nb_pass steps w r i w1 w2 :
  pipeline (warmup_call the_prompt) w = (Returns r, w1) ->
  images r = Some i ->
  world_after pipeline (timed_call the_prompt steps) (Z.to_nat nb_pass) w1 = Some w2 ->
  nb_pass <> 0%Z -> (Z.abs nb_pass < 2 ^ 1022)%Z ->
  outcome (elapsed_time (arith:=binary64_arith) images time_time pipeline
             the_prompt nb_pass steps w)
  = inr (Binary64.div (Binary64.sub (time_time w2) (time_time w1))
           (Binary64.of_int nb_pass)).
Proof.
  intros Hp Hi Hw Hn Hb.
  rewrite (run_measures _ _ _ _ images time_time pipeline the_prompt nb_pass steps
             w r i w1 w2 Hp Hi Hw).
  unfold outcome, division_result. cbn [fst t_truediv t_sub binary64_arith].
  rewrite (float_truediv_finite _ nb_pass Hn Hb). reflexivity.
Qed.

(** X7.  On binary64, for [nb_pass] that is not zero and below [2^1022] in
    magnitude, the division of the harness raises nothing, whatever the two
    readings are: when the warm-up call returns an object with [images] and
    the timed calls return, the run returns the float quotient of the float
    difference by [float(nb_pass)]. *)
Theorem binary64_run_returns the_prompt nb_pass steps w r i w1 w2 :
  pipeline (warmup_call the_prompt) w = (Returns r, w1) ->
  images r = Some i ->
  world_after pipeline (timed_call the_prompt steps) (Z.to_nat nb_pass) w1 = Some w2 ->
  nb_pass <> 0%Z -> (Z.abs nb_pass < 2 ^ 1022)%Z ->
  outcome (elapsed_time (arith:=binary64_arith) images time_time pipeline
             the_prompt nb_pass steps w)
  = inr (Binary64.div (Binary64.sub (time_time w2) (time_time w1))
           (Binary64.of_int nb_pass)).
Proof.
  intros Hp Hi Hw Hn Hb.
  exact (float_run_divides the_prompt nb_pass steps w r i w1 w2 Hp Hi Hw Hn Hb).
Qed.

(** X8.  On binary64, a run that returns a value read the clock twice, and
    when both readings are numbers, neither infinite nor NaN, the value
    returned is not a NaN. *)
Theorem binary64_average_is_not_nan the_prompt nb_pass steps w v :
  let res := elapsed_time (arith:=binary64_arith) images time_time pipeline
               the_prompt nb_pass steps w in
  outcome res = inr v ->
  exists s e,
    events res = full_trace the_prompt nb_pass steps s e /\
    (Binary64.is_number s = true -> Binary64.is_number e = true ->
     Binary64.is_nan v = false).
Proof.
  intros res Hv. subst res.
  destruct (returned_run _ _ _ _ images time_time pipeline the_prompt nb_pass steps
              w v Hv) as (r & i & w1 & w2 & Hp & Hi & Hw & Hrun & Hd).
  exists (time_time w1), (time_time w2). rewrite Hrun. split; [reflexivity|].
  intros Hs He. cbn [t_truediv t_sub binary64_arith] in Hd.
  apply (float_truediv_not_nan _ nb_pass v (sub_not_nan _ _ He Hs) Hd).
Qed.


End FloatRuns.

(** ** The sign of the binary64 average when the clock goes backwards *)

Section FloatSign.

Import Binary64.

Lemma sign_true_nonpos x : sign_is true x -> leb x zero = true.
Proof. destruct x as [s|s| |s m e]; simpl; intros H; try contradiction; subst; reflexivity. Qed.

Lemma binary_normalize_nonpos m e :
  (m <= 0)%Z -> leb (binary_normalize prec emax m e false) zero = true.
Proof.
  intros Hm. pose proof (normalize_sign m e) as Hs.
  destruct m as [|p|p]; [reflexivity|lia|].
  apply sign_true_nonpos. exact Hs.
Qed.

(** [x - y <= 0.0] when [x <= y], for finite floats. *)
Lemma sub_nonpos x y :
  is_finite x = true -> is_finite y = true -> leb x y = true ->
  leb (sub x y) zero = true.
Proof.
  intros Fx Fy Hle.
  unfold leb, SFleb in Hle. unfold sub.
  destruct x as [sx|sx| |sx mx ex]; try discriminate;
    destruct y as [sy|sy| |sy my ey]; try discriminate.
  - destruct sx, sy; reflexivity.
  - cbn [SFsub]. destruct sy; [discriminate|reflexivity].
  - cbn [SFsub]. destruct sx; [reflexivity|discriminate].
  - cbn [is_finite] in Fx, Fy. cbn [SFsub].
    apply binary_normalize_nonpos.
    pose proof (Binary64Facts.shl_align_value mx ex (Z.min ex ey)) as Ha.
    pose proof (Binary64Facts.shl_align_value my ey (Z.min ex ey)) as Hb.
    pose proof (Pos2Z.is_pos (fst (shl_align mx ex (Z.min ex ey)))) as Hapos.
    pose proof (Pos2Z.is_pos (fst (shl_align my ey (Z.min ex ey)))) as Hbpos.
    set (a := Zpos (fst (shl_align mx ex (Z.min ex ey)))) in *.
    set (b := Zpos (fst (shl_align my ey (Z.min ex ey)))) in *.
    clearbody a b.
    destruct sx, sy; cbn [SFcompare] in Hle; cbn [cond_Zopp negb]; try lia.
    + (* both negative *)
      destruct (Z.compare_spec ex ey) as [He|He|He]; try discriminate Hle.
      * subst ey. rewrite Z.min_id, Z.ltb_irrefl in Ha, Hb.
        rewrite Pos.compare_cont_spec in Hle. cbn [Pos.switch_Eq] in Hle.
        destruct (Pos.compare_spec mx my); try discriminate Hle; lia.
      * rewrite Z.min_r in Ha, Hb by lia. rewrite Z.ltb_irrefl in Hb.
        replace (ey <? ex)%Z with true in Ha by (symmetry; apply Z.ltb_lt; lia).
        pose proof (Binary64Facts.aligned_le my ey mx ex Fy Fx He). lia.
    + (* both positive *)
      destruct (Z.compare_spec ex ey) as [He|He|He]; try discriminate Hle.
      * subst ey. rewrite Z.min_id, Z.ltb_irrefl in Ha, Hb.
        rewrite Pos.compare_cont_spec in Hle. cbn [Pos.switch_Eq] in Hle.
        destruct (Pos.compare_spec mx my); try discriminate Hle; lia.
      * rewrite Z.min_l in Ha, Hb by lia. rewrite Z.ltb_irrefl in Ha.
        replace (ex <? ey)%Z with true in Hb by (symmetry; apply Z.ltb_lt; lia).
        pose proof (Binary64Facts.aligned_le mx ex my ey Fx Fy He). lia.
Qed.

(** [x / n <= 0.0] when [x <= 0.0] and [n > 0]. *)
Lemma float_truediv_nonpos x n v :
  leb x zero = true -> (0 < n)%Z -> float_truediv x n = inr v ->
  leb v zero = true.
Proof.
  intros Hx Hn Hv. unfold float_truediv in Hv.
  pose proof (Binary64Facts.of_int_nonzero n ltac:(lia)) as Hy.
  replace (n <? 0)%Z with false in Hy by (symmetry; apply Z.ltb_ge; lia).
  destruct (of_int n) as [sy|sy| |sy my ey]; simpl in Hy; try contradiction;
    try discriminate.
  subst sy. injection Hv as <-.
  destruct x as [sx|sx| |sx mx ex]; try discriminate Hx.
  - destruct sx; reflexivity.
  - destruct sx; [reflexivity|discriminate Hx].
  - destruct sx; [|discriminate Hx]. unfold div. cbn [SFdiv].
    pose proof (Binary64Facts.div_core_spec mx ex my ey) as Hcore.
    destruct (SFdiv_core_binary prec emax (Zpos mx) ex (Zpos my) ey) as [[q e'] l].
    destruct Hcore as (Hq & _).
    apply sign_true_nonpos.
    apply (Binary64Facts.binary_round_aux_sign (xorb true false)). exact Hq.
Qed.

End FloatSign.

Section FloatBackwards.

Variables World Obj Img Exc : Type.
Variable images : Obj -> option Img.
Variable time_time : World -> Binary64.float.
Variable pipeline : Pipeline World Obj Exc.

(** X10.  On binary64, a run with [nb_pass > 0] that returns [v] read the
    clock twice, and when both readings are finite and the second is not
    above the first, because the wall clock stood still or was set back,
    [v <= 0.0]. *)
Theorem backwards_clock_average_not_positive the_prompt nb_pass steps w v :
  let res := elapsed_time (arith:=binary64_arith) images time_time pipeline
               the_prompt nb_pass steps w in
  (0 < nb_pass)%Z ->
  outcome res = inr v ->
  exists s e,
    events res = full_trace the_prompt nb_pass steps s e /\
    (Binary64.is_finite s = true -> Binary64.is_finite e = true ->
     Binary64.leb e s = true ->
     Binary64.leb v Binary64.zero = true).
Proof.
  intros res Hn Hv. subst res.
  destruct (returned_run _ _ _ _ images time_time pipeline the_prompt nb_pass steps
              w v Hv) as (r & i & w1 & w2 & Hp & Hi & Hw & Hrun & Hd).
  exists (time_time w1), (time_time w2). rewrite Hrun. split; [reflexivity|].
  intros Fs Fe Hle. cbn [t_truediv t_sub binary64_arith] in Hd.
  apply (float_truediv_nonpos _ nb_pass v (sub_nonpos _ _ Fe Fs Hle) Hn Hd).
Qed.

End FloatBackwards.

(** ** The harness on concrete worlds *)

Local Open Scope string_scope.
Local Open Scope list_scope.

(** C1 as stated fails on binary64.  Every call returns and takes 0.1; the
    clock reads 0.1 after the warm-up call and 0.4 after three timed calls;
    the four calls are made, and [(0.4 - 0.1) / 3] is 0.10000000000000002,
    not 0.1. *)
Lemma float_average_is_not_duration :
  always_succeeds images_of (ticking (arith:=binary64_arith) f0_1) /\
  fixed_duration (arith:=binary64_arith) clock_reading (ticking (arith:=binary64_arith) f0_1) f0_1 /\
  let res :=
    elapsed_time (arith:=binary64_arith) images_of clock_reading (ticking (arith:=binary64_arith) f0_1)
      "a cat" 3 20 Binary64.zero in
  invocations (events res) = 4%nat /\
  outcome res = inr (S754_finite false 7205759403792795 (-56)) /\
  f0_1 = S754_finite false 7205759403792794 (-56) /\
  Binary64.eqb (S754_finite false 7205759403792795 (-56)) f0_1 = false.
Proof.
  split; [|split].
  - intros c w. exists WithImages, tt. split; reflexivity.
  - intros c w. reflexivity.
  - vm_compute. repeat split.
Qed.

(** C8 as stated fails on binary64.  With the same pipeline and one pass,
    the first call of the harness reads 0.1 and 0.2 and returns 0.1; the
    second one, started where the first ended, reads 0.30000000000000004 and
    0.4 and returns 0.09999999999999998. *)
Lemma float_average_not_repeatable :
  deterministic (arith:=binary64_arith) clock_reading (ticking (arith:=binary64_arith) f0_1)
    (fun _ => Returns WithImages) (fun _ => f0_1) /\
  let first :=
    elapsed_time (arith:=binary64_arith) images_of clock_reading (ticking (arith:=binary64_arith) f0_1)
      "a cat" 1 20 Binary64.zero in
  let second :=
    elapsed_time (arith:=binary64_arith) images_of clock_reading (ticking (arith:=binary64_arith) f0_1)
      "a cat" 1 20 (final_world first) in
  outcome first = inr (S754_finite false 7205759403792794 (-56)) /\
  outcome second = inr (S754_finite false 7205759403792792 (-56)) /\
  ~ same_result (arith:=binary64_arith) (outcome first) (outcome second).
Proof.
  split.
  - intros c w. split; reflexivity.
  - vm_compute. repeat split. discriminate.
Qed.

(** C6 as stated fails when the wall clock is set back between the two
    readings: [start] is 10.0, [end] is 5.0, and the harness returns -5.0. *)
Lemma clock_set_back_negative_average :
  let res :=
    elapsed_time (arith:=binary64_arith) images_of clock_reading clock_set_back
      "a cat" 1 20 Binary64.zero in
  outcome res = inr fneg5 /\
  Binary64.leb Binary64.zero fneg5 = false /\
  Binary64.ltb fneg5 Binary64.zero = true.
Proof. vm_compute. repeat split. Qed.

(** *** The theorems at concrete inputs *)

Lemma invocations_and_average_witness :
  (always_succeeds images_of (ticking (arith:=binary64_arith) f0_1) /\
   (0 < 3)%Z /\
   let res :=
     elapsed_time (arith:=binary64_arith) images_of clock_reading
       (ticking (arith:=binary64_arith) f0_1) "a cat" 3 20 Binary64.zero in
   (exists s e,
       events res =
         [EvCall (warmup_call "a cat"); EvGetattr "images"; EvTime s]
           ++ repeat (EvCall (timed_call "a cat" 20)) (Z.to_nat 3)
           ++ [EvTime e]) /\
   Z.of_nat (invocations (events res)) = (1 + 3)%Z) /\
  (always_succeeds images_of (ticking (arith:=exact_arith) (1 # 2)) /\
   fixed_duration (arith:=exact_arith) clock_reading
     (ticking (arith:=exact_arith) (1 # 2)) (1 # 2) /\
   (0 < 4)%Z /\
   exists v,
     outcome (elapsed_time (arith:=exact_arith) images_of clock_reading
                (ticking (arith:=exact_arith) (1 # 2)) "a cat" 4 20 0%Q) = inr v /\
     v == 1 # 2) /\
  (inject_Z 3 <= Binary64.pow2 1000 /\
   0 <= Binary64.value f0_1 /\
   readings_advance clock_reading (ticking (arith:=binary64_arith) f0_1) "a cat" 3 20
     Binary64.zero (Binary64.value f0_1) (Binary64.pow2 (-55)) /\
   exists v,
     outcome (elapsed_time (arith:=binary64_arith) images_of clock_reading
                (ticking (arith:=binary64_arith) f0_1) "a cat" 3 20 Binary64.zero)
       = inr v /\
     Binary64.is_number v = true /\
     Qabs (Binary64.value v - Binary64.value f0_1)
     <= average_tolerance (Binary64.value f0_1) (Binary64.pow2 (-55)) 3).
Proof.
  destruct invocations_and_average as (Hcalls & Havg & Hfloat).
  assert (Hokf : always_succeeds images_of (ticking (arith:=binary64_arith) f0_1)).
  { intros c w. exists WithImages, tt. split; reflexivity. }
  assert (Hok : always_succeeds images_of (ticking (arith:=exact_arith) (1 # 2))).
  { intros c w. exists WithImages, tt. split; reflexivity. }
  assert (Hd : fixed_duration (arith:=exact_arith) clock_reading
                 (ticking (arith:=exact_arith) (1 # 2)) (1 # 2)).
  { intros c w. simpl. reflexivity. }
  assert (H3 : (0 < 3)%Z) by lia.
  assert (H4 : (0 < 4)%Z) by lia.
  assert (B3 : inject_Z 3 <= Binary64.pow2 1000) by (vm_compute; discriminate).
  assert (D0 : 0 <= Binary64.value f0_1) by (vm_compute; discriminate).
  assert (Hadv : readings_advance clock_reading (ticking (arith:=binary64_arith) f0_1)
                   "a cat" 3 20 Binary64.zero (Binary64.value f0_1)
                   (Binary64.pow2 (-55))).
  { intros r w1 w2 Hp Hw. vm_compute in Hp. injection Hp as _ <-.
    vm_compute in Hw. injection Hw as <-.
    repeat split; vm_compute; discriminate. }
  split; [|split].
  - split; [exact Hokf|]. split; [exact H3|].
    exact (Hcalls _ binary64_arith _ _ _ _ images_of clock_reading
             (ticking (arith:=binary64_arith) f0_1) "a cat" 3%Z 20%Z Binary64.zero Hokf H3).
  - split; [exact Hok|]. split; [exact Hd|]. split; [exact H4|].
    exact (Havg _ _ _ _ images_of clock_reading
             (ticking (arith:=exact_arith) (1 # 2)) "a cat" 4%Z 20%Z (1 # 2) 0%Q Hok Hd H4).
  - split; [exact B3|]. split; [exact D0|]. split; [exact Hadv|].
    exact (Hfloat _ _ _ _ images_of clock_reading
             (ticking (arith:=binary64_arith) f0_1) "a cat" 3%Z 20%Z
             (Binary64.value f0_1) (Binary64.pow2 (-55)) Binary64.zero
             Hokf H3 B3 D0 Hadv).
Defined.

Lemma average_excludes_warmup_witness :
  exists v,
    outcome (elapsed_time (arith:=binary64_arith) images_of clock_reading
               (ticking (arith:=binary64_arith) f0_1) "a cat" 3 20 Binary64.zero) = inr v /\
    exists r i w1 w2,
      ticking (arith:=binary64_arith) f0_1 (warmup_call "a cat") Binary64.zero = (Returns r, w1) /\
      images_of r = Some i /\
      world_after (ticking (arith:=binary64_arith) f0_1) (timed_call "a cat" 20) (Z.to_nat 3) w1
        = Some w2 /\
      t_truediv (t_sub w2 w1) 3 = inr v.
Proof.
  exists (S754_finite false 7205759403792795 (-56)).
  assert (Hv : outcome (elapsed_time (arith:=binary64_arith) images_of clock_reading
                          (ticking (arith:=binary64_arith) f0_1) "a cat" 3 20 Binary64.zero)
               = inr (S754_finite false 7205759403792795 (-56)))
    by (vm_compute; reflexivity).
  split; [exact Hv|].
  destruct (average_excludes_warmup _ _ _ _ images_of clock_reading
              (ticking (arith:=binary64_arith) f0_1) "a cat" 3 20 Binary64.zero _ Hv)
    as (r & i & w1 & w2 & Hp & Hi & Hw & _ & _ & Hd).
  exists r, i, w1, w2. repeat split; assumption.
Defined.

Lemma warmup_failure_propagates_witness :
  let res :=
    elapsed_time (arith:=exact_arith) images_of counted_reading (failing_at (arith:=exact_arith) 0 (1 # 2))
      "a cat" 4 20 (O, 0%Q) in
  failing_at (arith:=exact_arith) 0 (1 # 2) (warmup_call "a cat") (O, 0%Q)
    = (Raises "out of memory", (1%nat, 0%Q)) /\
  outcome res = inl (Propagated "out of memory") /\
  events res = [EvCall (warmup_call "a cat")] /\
  invocations (events res) = 1%nat /\
  timestamps (events res) = 0%nat /\
  final_world res = (1%nat, 0%Q).
Proof.
  intros res.
  assert (Hp : failing_at (arith:=exact_arith) 0 (1 # 2) (warmup_call "a cat") (O, 0%Q)
               = (Raises "out of memory", (1%nat, 0%Q))) by reflexivity.
  split; [exact Hp|].
  exact (warmup_failure_propagates _ _ _ _ images_of counted_reading
           (failing_at (arith:=exact_arith) 0 (1 # 2)) "a cat" 4 20 (O, 0%Q)
           "out of memory" (1%nat, 0%Q) Hp).
Defined.

Lemma timed_failure_propagates_witness :
  let p := failing_at (arith:=exact_arith) 2 (1 # 2) in
  let res := elapsed_time (arith:=exact_arith) images_of counted_reading p "a cat" 4 20 (O, 0%Q) in
  ((1 <= 2)%nat /\ (Z.of_nat 2 <= 4)%Z /\
   p (warmup_call "a cat") (O, 0%Q) = (Returns WithImages, (1%nat, 1 # 2)) /\
   images_of WithImages = Some tt /\
   world_after p (timed_call "a cat" 20) (2 - 1) (1%nat, 1 # 2)
     = Some (2%nat, (1 # 2) + (1 # 2)) /\
   p (timed_call "a cat" 20) (2%nat, (1 # 2) + (1 # 2))
     = (Raises "out of memory", (3%nat, (1 # 2) + (1 # 2)))) /\
  outcome res = inl (Propagated "out of memory") /\
  events res =
    [EvCall (warmup_call "a cat"); EvGetattr "images"; EvTime (1 # 2)]
      ++ repeat (EvCall (timed_call "a cat" 20)) 2 /\
  invocations (events res) = (1 + 2)%nat /\
  timestamps (events res) = 1%nat /\
  final_world res = (3%nat, (1 # 2) + (1 # 2)).
Proof.
  intros p res.
  assert (H1 : (1 <= 2)%nat) by lia.
  assert (H2 : (Z.of_nat 2 <= 4)%Z) by lia.
  assert (H3 : p (warmup_call "a cat") (O, 0%Q) = (Returns WithImages, (1%nat, 1 # 2)))
    by reflexivity.
  assert (H4 : images_of WithImages = Some tt) by reflexivity.
  assert (H5 : world_after p (timed_call "a cat" 20) (2 - 1) (1%nat, 1 # 2)
               = Some (2%nat, (1 # 2) + (1 # 2))) by reflexivity.
  assert (H6 : p (timed_call "a cat" 20) (2%nat, (1 # 2) + (1 # 2))
               = (Raises "out of memory", (3%nat, (1 # 2) + (1 # 2)))) by reflexivity.
  split; [repeat split; assumption|].
  exact (timed_failure_propagates _ _ _ _ images_of counted_reading p "a cat" 4 20
           (O, 0%Q) WithImages tt (1%nat, 1 # 2) 2 _ "out of memory" _
           H1 H2 H3 H4 H5 H6).
Defined.


Lemma average_nonnegative_witness :
  let res :=
    elapsed_time (arith:=binary64_arith) images_of clock_reading
      (ticking (arith:=binary64_arith) f0_1) "a cat" 3 20 Binary64.zero in
  let v := S754_finite false 7205759403792795 (-56) in
  (0 < 3)%Z /\ outcome res = inr v /\
  Binary64.leb Binary64.zero v = true.
Proof.
  intros res v.
  assert (Hn : (0 < 3)%Z) by lia.
  assert (Hv : outcome res = inr v) by (vm_compute; reflexivity).
  split; [exact Hn|]. split; [exact Hv|].
  destruct (average_nonnegative _ _ _ _ images_of clock_reading
              (ticking (arith:=binary64_arith) f0_1) "a cat" 3 20 Binary64.zero v Hn Hv)
    as (r & w1 & w2 & Hp & Hev & Hnonneg).
  unfold res in Hev. vm_compute in Hev. inversion Hev; subst w1 w2.
  apply Hnonneg; vm_compute; reflexivity.
Defined.

Lemma average_repeatable_witness :
  (let p := ticking (arith:=exact_arith) (1 # 2) in
   deterministic (arith:=exact_arith) clock_reading p
     (fun _ => Returns WithImages) (fun _ => 1 # 2) /\
   let first := elapsed_time (arith:=exact_arith) images_of clock_reading p "a cat" 4 20 0%Q in
   let second :=
     elapsed_time (arith:=exact_arith) images_of clock_reading p "a cat" 4 20
       (final_world first) in
   same_result (arith:=exact_arith) (outcome first) (outcome second)) /\
  (let p := ticking (arith:=binary64_arith) f0_1 in
   let d := Binary64.value f0_1 in
   let delta := Binary64.pow2 (-55) in
   let first :=
     elapsed_time (arith:=binary64_arith) images_of clock_reading p "a cat" 1 20
       Binary64.zero in
   let second :=
     elapsed_time (arith:=binary64_arith) images_of clock_reading p "a cat" 1 20
       (final_world first) in
   always_succeeds images_of p /\
   (0 < 1)%Z /\ inject_Z 1 <= Binary64.pow2 1000 /\ 0 <= d /\
   readings_advance clock_reading p "a cat" 1 20 Binary64.zero d delta /\
   readings_advance clock_reading p "a cat" 1 20 (final_world first) d delta /\
   exists v1 v2,
     outcome first = inr v1 /\ outcome second = inr v2 /\
     Binary64.is_number v1 = true /\ Binary64.is_number v2 = true /\
     Qabs (Binary64.value v1 - Binary64.value v2) <= 2 * average_tolerance d delta 1).
Proof.
  destruct average_repeatable as (Hexact & Hfloat).
  split.
  - intros p.
    assert (Hdet : deterministic (arith:=exact_arith) clock_reading p
                     (fun _ => Returns WithImages) (fun _ => 1 # 2)).
    { intros c w. split; [reflexivity|]. simpl. reflexivity. }
    split; [exact Hdet|].
    exact (Hexact _ _ _ _ images_of clock_reading p "a cat" 4%Z 20%Z _ _ 0%Q Hdet).
  - intros p d delta first second.
    assert (Hok : always_succeeds images_of p).
    { intros c w. exists WithImages, tt. split; reflexivity. }
    assert (H1 : (0 < 1)%Z) by lia.
    assert (B1 : inject_Z 1 <= Binary64.pow2 1000) by (vm_compute; discriminate).
    assert (D0 : 0 <= d) by (vm_compute; discriminate).
    assert (Ha : readings_advance clock_reading p "a cat" 1 20 Binary64.zero d delta).
    { intros r w1 w2 Hp Hw. vm_compute in Hp. injection Hp as _ <-.
      vm_compute in Hw. injection Hw as <-.
      repeat split; vm_compute; discriminate. }
    assert (Hb : readings_advance clock_reading p "a cat" 1 20 (final_world first) d delta).
    { intros r w1 w2 Hp Hw. vm_compute in Hp. injection Hp as _ <-.
      vm_compute in Hw. injection Hw as <-.
      repeat split; vm_compute; discriminate. }
    split; [exact Hok|]. split; [exact H1|]. split; [exact B1|]. split; [exact D0|].
    split; [exact Ha|]. split; [exact Hb|].
    exact (Hfloat _ _ _ _ images_of clock_reading p "a cat" 1%Z 20%Z d delta
             Binary64.zero Hok H1 B1 D0 Ha Hb).
Defined.

Lemma zero_passes_divide_by_zero_witness :
  let p := ticking (arith:=binary64_arith) f0_1 in
  let res := elapsed_time (arith:=binary64_arith) images_of clock_reading p
               "a cat" 0 20 Binary64.zero in
  calls_of (events res) = [warmup_call "a cat"] /\
  res = (inl ZeroDivisionError, f0_1,
         [EvCall (warmup_call "a cat"); EvGetattr "images"; EvTime f0_1; EvTime f0_1]) /\
  outcome (elapsed_time (arith:=binary64_arith) images_of clock_reading p
             "a cat" 1 20 Binary64.zero) <> inl ZeroDivisionError.
Proof.
  intros p res.
  destruct (zero_passes_divide_by_zero _ _ _ _ images_of clock_reading p
              (laws:=binary64_laws) "a cat" 20 Binary64.zero) as (Hcalls & Hzero & Hpos).
  split; [exact Hcalls|]. split.
  - apply (Hzero WithImages tt); vm_compute; reflexivity.
  - apply Hpos. lia.
Defined.

Lemma warmup_reads_images_witness :
  let p := bare (arith:=binary64_arith) f0_1 in
  let res := elapsed_time (arith:=binary64_arith) images_of clock_reading p
               "a cat" 4 20 Binary64.zero in
  (exists j, map output_type (calls_of (events res)) = None :: repeat (Some "np") j) /\
  nth_error (events res) 1 = Some (EvGetattr "images") /\
  filter is_getattr (events res) = [EvGetattr "images"] /\
  outcome res = inl (AttributeError "images") /\
  invocations (events res) = 1%nat.
Proof.
  intros p res.
  destruct (warmup_reads_images _ _ _ _ images_of clock_reading p "a cat" 4 20
              Binary64.zero) as (Hargs & Hwarm).
  split; [exact Hargs|].
  destruct (Hwarm Bare f0_1) as (Hnth & Hfilter & Hbare).
  - vm_compute. reflexivity.
  - split; [exact Hnth|]. split; [exact Hfilter|]. apply Hbare. reflexivity.
Defined.

(** *** The further theorems at concrete inputs *)

Lemma propagated_exception_was_raised_witness :
  let p := failing_at (arith:=exact_arith) 2 (1 # 2) in
  let res := elapsed_time (arith:=exact_arith) images_of counted_reading p "a cat" 4 20 (O, 0%Q) in
  outcome res = inl (Propagated "out of memory") /\
  exists tr c w',
    events res = tr ++ [EvCall c] /\
    (c = warmup_call "a cat" \/ c = timed_call "a cat" 20) /\
    p c (replay p tr (O, 0%Q)) = (Raises "out of memory", w') /\
    final_world res = w'.
Proof.
  intros p res.
  assert (Hv : outcome res = inl (Propagated "out of memory")) by reflexivity.
  split; [exact Hv|].
  exact (propagated_exception_was_raised _ _ _ _ images_of counted_reading p
           "a cat" 4 20 (O, 0%Q) "out of memory" Hv).
Defined.


Lemma negative_passes_skip_the_loop_witness :
  let p := ticking (arith:=binary64_arith) f0_1 in
  let res := elapsed_time (arith:=binary64_arith) images_of clock_reading p
               "a cat" (-2) 20 Binary64.zero in
  (-2 < 0)%Z /\
  calls_of (events res) = [warmup_call "a cat"] /\
  outcome res <> inl ZeroDivisionError /\
  exists s e,
    res = (division_result string (t_sub e s) (-2), f0_1,
           [EvCall (warmup_call "a cat"); EvGetattr "images"; EvTime s; EvTime e]).
Proof.
  intros p res.
  assert (Hn : (-2 < 0)%Z) by lia.
  destruct (negative_passes_skip_the_loop _ _ _ _ images_of clock_reading p
              (laws:=binary64_laws) "a cat" (-2) 20 Binary64.zero Hn)
    as (Hcalls & Hzero & Hrun).
  split; [exact Hn|]. split; [exact Hcalls|]. split; [exact Hzero|].
  apply (Hrun WithImages tt); vm_compute; reflexivity.
Defined.

Lemma returned_objects_are_discarded_witness :
  same_effects images_of (fun n : Z => Some n)
    (ticking (arith:=binary64_arith) f0_1) (stepping (arith:=binary64_arith) f0_1) /\
  elapsed_time (arith:=binary64_arith) images_of clock_reading
    (ticking (arith:=binary64_arith) f0_1) "a cat" 3 20 Binary64.zero
  = elapsed_time (arith:=binary64_arith) (fun n : Z => Some n) clock_reading
      (stepping (arith:=binary64_arith) f0_1) "a cat" 3 20 Binary64.zero.
Proof.
  assert (Hsame : same_effects images_of (fun n : Z => Some n)
                    (ticking (arith:=binary64_arith) f0_1)
                    (stepping (arith:=binary64_arith) f0_1)).
  { intros c w. split; [reflexivity|]. simpl. intros _. split; discriminate. }
  split; [exact Hsame|].
  exact (returned_objects_are_discarded _ _ _ _ _ _ images_of (fun n : Z => Some n)
           clock_reading _ _ Hsame "a cat" 3 20 Binary64.zero).
Defined.


Lemma binary64_run_returns_witness :
  let p := ticking (arith:=binary64_arith) f0_1 in
  let w2 := Binary64.add (Binary64.add (Binary64.add f0_1 f0_1) f0_1) f0_1 in
  (p (warmup_call "a cat") Binary64.zero = (Returns WithImages, f0_1) /\
   images_of WithImages = Some tt /\
   world_after p (timed_call "a cat" 20) (Z.to_nat 3) f0_1 = Some w2 /\
   3%Z <> 0%Z /\ (Z.abs 3 < 2 ^ 1022)%Z) /\
  outcome (elapsed_time (arith:=binary64_arith) images_of clock_reading p
             "a cat" 3 20 Binary64.zero)
  = inr (Binary64.div (Binary64.sub w2 f0_1) (Binary64.of_int 3)).
Proof.
  intros p w2.
  assert (Hp : p (warmup_call "a cat") Binary64.zero = (Returns WithImages, f0_1))
    by (vm_compute; reflexivity).
  assert (Hi : images_of WithImages = Some tt) by reflexivity.
  assert (Hw : world_after p (timed_call "a cat" 20) (Z.to_nat 3) f0_1 = Some w2)
    by (vm_compute; reflexivity).
  assert (Hn : 3%Z <> 0%Z) by lia.
  assert (Hb : (Z.abs 3 < 2 ^ 1022)%Z) by (vm_compute; reflexivity).
  split; [repeat split; assumption|].
  exact (binary64_run_returns _ _ _ _ images_of clock_reading p "a cat" 3 20
           Binary64.zero WithImages tt f0_1 w2 Hp Hi Hw Hn Hb).
Defined.

Lemma binary64_average_is_not_nan_witness :
  let res :=
    elapsed_time (arith:=binary64_arith) images_of clock_reading
      (ticking (arith:=binary64_arith) f0_1) "a cat" 3 20 Binary64.zero in
  let v := S754_finite false 7205759403792795 (-56) in
  outcome res = inr v /\ Binary64.is_nan v = false.
Proof.
  intros res v.
  assert (Hv : outcome res = inr v) by (vm_compute; reflexivity).
  split; [exact Hv|].
  destruct (binary64_average_is_not_nan _ _ _ _ images_of clock_reading
              (ticking (arith:=binary64_arith) f0_1) "a cat" 3 20 Binary64.zero v Hv)
    as (s & e & Hev & Hnan).
  unfold res in Hev. vm_compute in Hev. inversion Hev; subst s e.
  apply Hnan; vm_compute; reflexivity.
Defined.


Lemma backwards_clock_average_not_positive_witness :
  let res :=
    elapsed_time (arith:=binary64_arith) images_of clock_reading clock_set_back
      "a cat" 1 20 Binary64.zero in
  (0 < 1)%Z /\ outcome res = inr fneg5 /\
  Binary64.leb fneg5 Binary64.zero = true.
Proof.
  intros res.
  assert (Hn : (0 < 1)%Z) by lia.
  assert (Hv : outcome res = inr fneg5) by (vm_compute; reflexivity).
  split; [exact Hn|]. split; [exact Hv|].
  destruct (backwards_clock_average_not_positive _ _ _ _ images_of clock_reading
              clock_set_back "a cat" 1 20 Binary64.zero fneg5 Hn Hv)
    as (s & e & Hev & Hle).
  unfold res in Hev. vm_compute in Hev. inversion Hev; subst s e.
  apply Hle; vm_compute; reflexivity.
Defined.

